(** * KCSP: the caching proxy's API pipeline (src/server.js)

    A shallow embedding of the API path of the proxy server: the header
    sanitizer [removeProxyHeaders], the identity resolver [getRequestId],
    the cache coordinator [makeAPIRequest] and the request handler
    [onAPIRequest] with its error translation, together with the parts of
    the JavaScript platform they rest on (JSON text, [Buffer], the
    query-string parser).  The first part holds the definitions; the second
    proves the behaviour of one request, branch by branch, and then of
    histories of requests that are handled one after the other.

    Conventions.  A JavaScript string is modelled by the bytes of its
    UTF-8 encoding (a Rocq [string]); a [Buffer] is a [string] as well, so
    [buf.toString()] is the identity.  Numbers are mathematical integers,
    or decimal literals kept as written when they carry a fraction or an
    exponent: rounding to binary64 is not modelled.  Logging is left out:
    it has no effect on the store, on the origin or on the result. *)

From Stdlib Require Import ZArith NArith Ascii String List Decimal DecimalString
  DecimalFacts DecimalN DecimalZ Lia.
From stdpp Require Import gmap strings list fin_maps.

Set Warnings "-register-all,-clear-no-such-hyp".
Local Open Scope Z_scope.

(* ===================================================================== *)
(** * JavaScript values and exceptions *)
(* ===================================================================== *)

(** The values that JSON text denotes, plus [Buffer]s.  An object is the
    list of its own properties in creation order. *)
Inductive value : Type :=
| VNull
| VBool (b : bool)
| VNum (n : Z)
| VReal (neg : bool) (int frac : uint) (exp : Z)
| VStr (s : string)
| VArr (elems : list value)
| VObj (props : list (string * value))
| VBuffer (bytes : string).

(** Thrown objects: the constructor is the class, the argument the
    [message]. *)
Inductive exn : Type :=
| Error (message : string)
| SyntaxError (message : string)
| TypeError (message : string)
| RangeError (message : string).

Definition message (e : exn) : string :=
  match e with
  | Error m | SyntaxError m | TypeError m | RangeError m => m
  end.

(** The result of an expression that may throw. *)
Inductive result (A : Type) : Type :=
| Ok (a : A)
| Throw (e : exn).
Arguments Ok {A} a.
Arguments Throw {A} e.

(* ===================================================================== *)
(** * JSON text: [JSON.stringify] *)
(* ===================================================================== *)

Definition DQUOTE : ascii := "034".
Definition BACKSLASH : ascii := "\".

Definition hex_lower (n : N) : ascii :=
  ascii_of_N (if (n <? 10)%N then 48 + n else 87 + n).

(** QuoteJSONString, one code unit at a time: the short escapes, [\u00xx]
    for the other control characters, anything else as it is. *)
Definition quote_char (c : ascii) : string :=
  match N_of_ascii c with
  | 8%N => "\b"
  | 9%N => "\t"
  | 10%N => "\n"
  | 12%N => "\f"
  | 13%N => "\r"
  | 34%N => String BACKSLASH (String DQUOTE "")
  | 92%N => "\\"
  | n =>
      if (n <? 32)%N
      then "\u00" +:+ String (hex_lower (n / 16)) (String (hex_lower (n mod 16)) "")
      else String c ""
  end.

Fixpoint quote_body (s : string) : string :=
  match s with
  | EmptyString => ""
  | String c s' => quote_char c +:+ quote_body s'
  end.

Definition quote (s : string) : string :=
  String DQUOTE (quote_body s +:+ String DQUOTE "").

(** Number::toString of an integer. *)
Definition number_to_string (n : Z) : string :=
  NilZero.string_of_int (Z.to_int n).

(** A literal with a fraction or an exponent, printed as it was read. *)
Definition real_to_string (neg : bool) (int frac : uint) (exp : Z) : string :=
  (if neg then "-" else "") +:+ NilZero.string_of_uint int
  +:+ (match frac with Nil => "" | _ => "." +:+ NilEmpty.string_of_uint frac end)
  +:+ (if exp =? 0 then "" else "e" +:+ number_to_string exp).

Definition byte_value (c : ascii) : Z := Z.of_N (N_of_ascii c).

(** [Buffer.prototype.toJSON]. *)
Definition Buffer_toJSON (bytes : string) : value :=
  VObj [ ("type", VStr "Buffer");
         ("data", VArr (map (λ c, VNum (byte_value c)) (list_ascii_of_string bytes))) ].

Fixpoint stringify_bytes (bytes : string) : string :=
  match bytes with
  | EmptyString => ""
  | String c bytes' =>
      number_to_string (byte_value c)
      +:+ match bytes' with
          | EmptyString => ""
          | _ => "," +:+ stringify_bytes bytes'
          end
  end.

(** [JSON.stringify(v)] without replacer or indentation.  A [Buffer] is
    serialized through its [toJSON] method (see [stringify_Buffer]). *)
Fixpoint JSON_stringify (v : value) : string :=
  match v with
  | VNull => "null"
  | VBool true => "true"
  | VBool false => "false"
  | VNum n => number_to_string n
  | VReal neg int frac exp => real_to_string neg int frac exp
  | VStr s => quote s
  | VArr elems =>
      "[" +:+
      (fix go (l : list value) : string :=
         match l with
         | [] => ""
         | x :: l' =>
             JSON_stringify x +:+
             match l' with [] => "" | _ => "," +:+ go l' end
         end) elems
      +:+ "]"
  | VObj props =>
      "{" +:+
      (fix go (l : list (string * value)) : string :=
         match l with
         | [] => ""
         | (k, x) :: l' =>
             quote k +:+ ":" +:+ JSON_stringify x +:+
             match l' with [] => "" | _ => "," +:+ go l' end
         end) props
      +:+ "}"
  | VBuffer bytes =>
      "{" +:+ quote "type" +:+ ":" +:+ quote "Buffer" +:+ ","
      +:+ quote "data" +:+ ":" +:+ "[" +:+ stringify_bytes bytes +:+ "]" +:+ "}"
  end.

(* ===================================================================== *)
(** * JSON text: [JSON.parse] *)
(* ===================================================================== *)

Definition is_ws (c : ascii) : bool :=
  match N_of_ascii c with
  | 32%N | 9%N | 10%N | 13%N => true
  | _ => false
  end.

Fixpoint skip_ws (s : string) : string :=
  match s with
  | String c s' => if is_ws c then skip_ws s' else s
  | EmptyString => s
  end.

Definition digit_of (c : ascii) : option (uint → uint) :=
  match N_of_ascii c with
  | 48%N => Some D0 | 49%N => Some D1 | 50%N => Some D2 | 51%N => Some D3
  | 52%N => Some D4 | 53%N => Some D5 | 54%N => Some D6 | 55%N => Some D7
  | 56%N => Some D8 | 57%N => Some D9
  | _ => None
  end.

(** The longest run of decimal digits at the head of [s]. *)
Fixpoint scan_digits (s : string) : uint * string :=
  match s with
  | String c s' =>
      match digit_of c with
      | Some d => let '(u, r) := scan_digits s' in (d u, r)
      | None => (Nil, s)
      end
  | EmptyString => (Nil, s)
  end.

(** [int]: a single [0], or digits that do not start with [0]. *)
Definition int_digits_ok (u : uint) : bool :=
  match u with
  | Nil => false
  | D0 Nil => true
  | D0 _ => false
  | _ => true
  end.

(** [s] begins with [c]: the rest of [s]. *)
Definition starts_with (c : ascii) (s : string) : option string :=
  match s with
  | String c' r => if decide (c' = c) then Some r else None
  | EmptyString => None
  end.

Definition scan_sign (s : string) : bool * string :=
  match starts_with "-" s with
  | Some s' => (true, s')
  | None => (false, s)
  end.

Definition scan_frac (s : string) : option (uint * string) :=
  match starts_with "." s with
  | Some s' =>
      match scan_digits s' with
      | (Nil, _) => None
      | (f, r) => Some (f, r)
      end
  | None => Some (Nil, s)
  end.

Definition scan_exp (s : string) : option (option Decimal.int * string) :=
  match s with
  | String c s' =>
      if (N_of_ascii c =? 101)%N || (N_of_ascii c =? 69)%N then
        let '(sign, s'') :=
          match starts_with "+" s' with
          | Some t => (Pos, t)
          | None =>
              match starts_with "-" s' with
              | Some t => (Neg, t)
              | None => (Pos, s')
              end
          end in
        match scan_digits s'' with
        | (Nil, _) => None
        | (e, r) => Some (Some (sign e), r)
        end
      else Some (None, s)
  | EmptyString => Some (None, s)
  end.

(** What follows the integer part of a number literal. *)
Definition number_tail (neg : bool) (i : uint) (s : string) : option (value * string) :=
  match scan_frac s with
  | Some (f, s3) =>
      match scan_exp s3 with
      | Some (e, s4) =>
          match f, e with
          | Nil, None => Some (VNum (Z.of_int (if neg then Neg i else Pos i)), s4)
          | _, _ => Some (VReal neg i f (from_option Z.of_int 0 e), s4)
          end
      | None => None
      end
  | None => None
  end.

Definition parse_number (s : string) : option (value * string) :=
  let '(neg, s1) := scan_sign s in
  let '(i, s2) := scan_digits s1 in
  if int_digits_ok i then number_tail neg i s2 else None.

Definition hex_value (c : ascii) : option N :=
  let n := N_of_ascii c in
  if ((48 <=? n) && (n <=? 57))%N then Some (n - 48)%N
  else if ((97 <=? n) && (n <=? 102))%N then Some (n - 87)%N
  else if ((65 <=? n) && (n <=? 70))%N then Some (n - 55)%N
  else None.

(** What a string literal contributes: a byte taken as it is, or a UTF-16
    code unit written as [\uXXXX]. *)
Inductive strtok : Type :=
| Raw (c : ascii)
| Unit16 (u : N).

(** The body of a string literal, after its opening quote, up to and
    including the closing quote. *)
Fixpoint scan_string (s : string) : option (list strtok * string) :=
  let cons (t : strtok) (r : option (list strtok * string)) :=
    match r with
    | Some (ts, rest) => Some (t :: ts, rest)
    | None => None
    end in
  match s with
  | EmptyString => None
  | String c s' =>
      match N_of_ascii c with
      | 34%N => Some ([], s')
      | 92%N =>
          match s' with
          | String e s'' =>
              match N_of_ascii e with
              | 34%N => cons (Raw DQUOTE) (scan_string s'')
              | 92%N => cons (Raw BACKSLASH) (scan_string s'')
              | 47%N => cons (Raw "/") (scan_string s'')
              | 98%N => cons (Raw "008") (scan_string s'')
              | 102%N => cons (Raw "012") (scan_string s'')
              | 110%N => cons (Raw "010") (scan_string s'')
              | 114%N => cons (Raw "013") (scan_string s'')
              | 116%N => cons (Raw "009") (scan_string s'')
              | 117%N =>
                  match s'' with
                  | String h1 (String h2 (String h3 (String h4 r))) =>
                      match hex_value h1, hex_value h2, hex_value h3, hex_value h4 with
                      | Some a, Some b, Some c, Some d =>
                          cons (Unit16 (((a * 16 + b) * 16 + c) * 16 + d)%N) (scan_string r)
                      | _, _, _, _ => None
                      end
                  | _ => None
                  end
              | _ => None
              end
          | EmptyString => None
          end
      | n => if (n <? 32)%N then None else cons (Raw c) (scan_string s')
      end
  end.

(** UTF-8 (generalized to lone surrogates) of a code point. *)
Definition utf8_encode (cp : N) : string :=
  let b (n : N) := ascii_of_N n in
  (if cp <? 128 then String (b cp) ""
   else if cp <? 2048 then
     String (b (192 + cp / 64)) (String (b (128 + cp mod 64)) "")
   else if cp <? 65536 then
     String (b (224 + cp / 4096))
       (String (b (128 + (cp / 64) mod 64)) (String (b (128 + cp mod 64)) ""))
   else
     String (b (240 + cp / 262144))
       (String (b (128 + (cp / 4096) mod 64))
          (String (b (128 + (cp / 64) mod 64)) (String (b (128 + cp mod 64)) ""))))%N.

Definition is_high_surrogate (u : N) : bool := ((55296 <=? u) && (u <=? 56319))%N.
Definition is_low_surrogate (u : N) : bool := ((56320 <=? u) && (u <=? 57343))%N.

Fixpoint string_of_tokens (ts : list strtok) : string :=
  match ts with
  | [] => ""
  | Raw c :: ts' => String c (string_of_tokens ts')
  | Unit16 u :: ts' =>
      match ts' with
      | Unit16 lo :: ts'' =>
          if is_high_surrogate u && is_low_surrogate lo
          then utf8_encode (65536 + (u - 55296) * 1024 + (lo - 56320))%N
               +:+ string_of_tokens ts''
          else utf8_encode u +:+ string_of_tokens ts'
      | _ => utf8_encode u +:+ string_of_tokens ts'
      end
  end.

Definition parse_string (s : string) : option (string * string) :=
  match scan_string s with
  | Some (ts, rest) => Some (string_of_tokens ts, rest)
  | None => None
  end.

(** [o[k] = v] on an object: an existing property keeps its place. *)
Fixpoint obj_set (k : string) (v : value) (o : list (string * value))
  : list (string * value) :=
  match o with
  | [] => [(k, v)]
  | (k', v') :: o' =>
      if decide (k = k') then (k, v) :: o' else (k', v') :: obj_set k v o'
  end.

(** The object built from the members of an object literal, read left to
    right: of two members with one name the later value wins. *)
Definition obj_of_members (ms : list (string * value)) : list (string * value) :=
  fold_left (λ o m, obj_set m.1 m.2 o) ms [].

Fixpoint strip_prefix (p s : string) : option string :=
  match p, s with
  | EmptyString, _ => Some s
  | String a p', String b s' => if decide (a = b) then strip_prefix p' s' else None
  | String _ _, EmptyString => None
  end.

(** Outcome of the recursive-descent parser: a value and the unread text,
    a syntax error, or not enough fuel. *)
Inductive parsed (A : Type) : Type :=
| Parsed (a : A) (rest : string)
| Unexpected
| Exhausted.
Arguments Parsed {A} a rest.
Arguments Unexpected {A}.
Arguments Exhausted {A}.

Definition parse_literal (s : string) : parsed value :=
  match strip_prefix "true" s with
  | Some r => Parsed (VBool true) r
  | None =>
      match strip_prefix "false" s with
      | Some r => Parsed (VBool false) r
      | None =>
          match strip_prefix "null" s with
          | Some r => Parsed VNull r
          | None =>
              match parse_number s with
              | Some (v, r) => Parsed v r
              | None => Unexpected
              end
          end
      end
  end.

Fixpoint parse_value (fuel : nat) (s : string) : parsed value :=
  match fuel with
  | O => Exhausted
  | S fuel =>
      match skip_ws s with
      | EmptyString => Unexpected
      | String c s' =>
          match N_of_ascii c with
          | 123%N =>
              match starts_with "}" (skip_ws s') with
              | Some r => Parsed (VObj []) r
              | None =>
                  match parse_members fuel s' with
                  | Parsed ms r => Parsed (VObj (obj_of_members ms)) r
                  | Unexpected => Unexpected
                  | Exhausted => Exhausted
                  end
              end
          | 91%N =>
              match starts_with "]" (skip_ws s') with
              | Some r => Parsed (VArr []) r
              | None =>
                  match parse_elements fuel s' with
                  | Parsed vs r => Parsed (VArr vs) r
                  | Unexpected => Unexpected
                  | Exhausted => Exhausted
                  end
              end
          | 34%N =>
              match parse_string s' with
              | Some (str, r) => Parsed (VStr str) r
              | None => Unexpected
              end
          | _ => parse_literal (String c s')
          end
      end
  end
with parse_elements (fuel : nat) (s : string) : parsed (list value) :=
  match fuel with
  | O => Exhausted
  | S fuel =>
      match parse_value fuel s with
      | Parsed v r =>
          match skip_ws r with
          | String "," r' =>
              match parse_elements fuel r' with
              | Parsed vs r'' => Parsed (v :: vs) r''
              | Unexpected => Unexpected
              | Exhausted => Exhausted
              end
          | String "]" r' => Parsed [v] r'
          | _ => Unexpected
          end
      | Unexpected => Unexpected
      | Exhausted => Exhausted
      end
  end
with parse_members (fuel : nat) (s : string) : parsed (list (string * value)) :=
  match fuel with
  | O => Exhausted
  | S fuel =>
      match skip_ws s with
      | String "034" s1 =>
          match parse_string s1 with
          | Some (k, s2) =>
              match skip_ws s2 with
              | String ":" s3 =>
                  match parse_value fuel s3 with
                  | Parsed v r =>
                      match skip_ws r with
                      | String "," r' =>
                          match parse_members fuel r' with
                          | Parsed ms r'' => Parsed ((k, v) :: ms) r''
                          | Unexpected => Unexpected
                          | Exhausted => Exhausted
                          end
                      | String "}" r' => Parsed [(k, v)] r'
                      | _ => Unexpected
                      end
                  | Unexpected => Unexpected
                  | Exhausted => Exhausted
                  end
              | _ => Unexpected
              end
          | None => Unexpected
          end
      | _ => Unexpected
      end
  end.

(** The text is one value between optional white space.  Every recursive
    call of the parser has read at least one character for two units of
    fuel, so the fuel below is never used up ([JSON_parse_text_total]).
    The stack of the engine is not modelled: on a text nested deeper than
    the engine can follow, [JSON.parse] throws a [RangeError] where this
    function returns.  The statements that depend on a text being read
    bound its [nesting]. *)
Definition JSON_parse_text (s : string) : result value :=
  match parse_value (2 * String.length s + 2) s with
  | Parsed v r =>
      match skip_ws r with
      | EmptyString => Ok v
      | _ => Throw (SyntaxError "Unexpected token in JSON")
      end
  | Unexpected => Throw (SyntaxError "Unexpected token in JSON")
  | Exhausted => Throw (RangeError "Maximum call stack size exceeded")
  end.

(** The deepest nesting of brackets and braces that a text reaches, string
    literals apart: the depth to which [JSON.parse] recurses on it. *)
Fixpoint nesting_scan (in_string escaped : bool) (depth : nat) (s : string) : nat :=
  match s with
  | EmptyString => 0%nat
  | String c s' =>
      if in_string then
        if escaped then nesting_scan true false depth s'
        else if decide (c = BACKSLASH) then nesting_scan true true depth s'
        else if decide (c = DQUOTE) then nesting_scan false false depth s'
        else nesting_scan true false depth s'
      else if decide (c = DQUOTE) then nesting_scan true false depth s'
      else if decide (c = "["%char ∨ c = "{"%char) then
        Nat.max (S depth) (nesting_scan false false (S depth) s')
      else if decide (c = "]"%char ∨ c = "}"%char) then
        nesting_scan false false (Nat.pred depth) s'
      else nesting_scan false false depth s'
  end.

Definition nesting (text : string) : nat := nesting_scan false false 0 text.

(** A nesting that every release of the engine follows with room to
    spare. *)
Definition shallow (text : string) : Prop := (nesting text ≤ 100)%nat.

(* ===================================================================== *)
(** * Property reads, truthiness and the [Buffer] constructor *)
(* ===================================================================== *)

(** [v[k]] for the property names this program reads ([type], [data],
    [statusCode], [headers], [content]); [None] is [undefined].  Only an
    object made by an object literal or by [JSON.parse] has them. *)
Definition get (v : value) (k : string) : option value :=
  match v with
  | VObj props => snd <$> List.find (λ p, bool_decide (p.1 = k)) props
  | _ => None
  end.

(** The same read where the base may be [null], which throws. *)
Definition member (v : value) (k : string) : result (option value) :=
  match v with
  | VNull => Throw (TypeError ("Cannot read property '" +:+ k +:+ "' of null"))
  | _ => Ok (get v k)
  end.

Definition truthy (v : value) : bool :=
  match v with
  | VNull => false
  | VBool b => b
  | VNum n => negb (n =? 0)
  | VReal _ int frac _ => negb ((N.of_uint int =? 0)%N && (N.of_uint frac =? 0)%N)
  | VStr s => negb (bool_decide (s = ""))
  | VArr _ | VObj _ | VBuffer _ => true
  end.

Definition ToUint8 (n : Z) : ascii := ascii_of_N (Z.to_N (n mod 256)).

(** The bytes of an array of integers that binary64 represents exactly. *)
Fixpoint bytes_of_integers (l : list value) : option string :=
  match l with
  | [] => Some ""
  | VNum n :: l' =>
      if Z.abs n <=? 2 ^ 53
      then String (ToUint8 n) <$> bytes_of_integers l'
      else None
  | _ :: _ => None
  end.

Section Platform.

(** What [new Buffer(x)] does for an [x] that is not [undefined], [null], a
    string, a [Buffer] or an array of integers (a size, a boolean, an
    array-like object, an array with other elements) has changed from one
    Node release to the next: the development is parametric in it. *)
Variable Buffer_from_other : value → result value.

Definition new_Buffer (arg : option value) : result value :=
  match arg with
  | None | Some VNull =>
      Throw (TypeError "First argument must be a string, Buffer, ArrayBuffer, Array, or array-like object.")
  | Some (VStr s) => Ok (VBuffer s)
  | Some (VBuffer b) => Ok (VBuffer b)
  | Some (VArr elems) =>
      match bytes_of_integers elems with
      | Some b => Ok (VBuffer b)
      | None => Buffer_from_other (VArr elems)
      end
  | Some v => Buffer_from_other v
  end.

(** InternalizeJSONProperty: the reviver is applied bottom-up, to the
    elements of an array and the properties of an object before the array
    or object itself; what it throws leaves [JSON.parse]. *)
Fixpoint internalize (reviver : string → value → result value)
    (key : string) (val : value) : result value :=
  match val with
  | VArr elems =>
      match
        (fix go (i : Z) (l : list value) : result (list value) :=
           match l with
           | [] => Ok []
           | x :: l' =>
               match internalize reviver (number_to_string i) x with
               | Ok x' =>
                   match go (i + 1) l' with
                   | Ok l'' => Ok (x' :: l'')
                   | Throw e => Throw e
                   end
               | Throw e => Throw e
               end
           end) 0 elems
      with
      | Ok elems' => reviver key (VArr elems')
      | Throw e => Throw e
      end
  | VObj props =>
      match
        (fix go (l : list (string * value)) : result (list (string * value)) :=
           match l with
           | [] => Ok []
           | (k, x) :: l' =>
               match internalize reviver k x with
               | Ok x' =>
                   match go l' with
                   | Ok l'' => Ok ((k, x') :: l'')
                   | Throw e => Throw e
                   end
               | Throw e => Throw e
               end
           end) props
      with
      | Ok props' => reviver key (VObj props')
      | Throw e => Throw e
      end
  | _ => reviver key val
  end.

(** [JSON.parse(text, reviver)]. *)
Definition JSON_parse (text : string) (reviver : string → value → result value)
  : result value :=
  match JSON_parse_text text with
  | Ok v => internalize reviver "" v
  | Throw e => Throw e
  end.

(** The reviver of [makeAPIRequest]:
    [(key, value) => (value && value.type === 'Buffer') ? new Buffer(value.data) : value]. *)
Definition reviver (key : string) (val : value) : result value :=
  if truthy val then
    match get val "type" with
    | Some (VStr t) =>
        if decide (t = "Buffer") then new_Buffer (get val "data") else Ok val
    | _ => Ok val
    end
  else Ok val.

End Platform.

(* ===================================================================== *)
(** * [querystring.parse] *)
(* ===================================================================== *)

(** [s.split(sep)] for a one-character separator. *)
Fixpoint split (sep : ascii) (s : string) : list string :=
  match s with
  | EmptyString => [""]
  | String c s' =>
      if decide (c = sep) then "" :: split sep s'
      else match split sep s' with
           | x :: l => String c x :: l
           | [] => [String c ""]
           end
  end.

(** [querystring.unescape]: [%XX] becomes the byte it names, a [%] that no
    two hexadecimal digits follow stays.  (Bytes that are not UTF-8 would
    be replaced by U+FFFD; that replacement is not modelled.) *)
Fixpoint unescape (s : string) : string :=
  match s with
  | EmptyString => ""
  | String c s' =>
      if decide (c = "%"%char) then
        match s' with
        | String h1 (String h2 r) =>
            match hex_value h1, hex_value h2 with
            | Some a, Some b => String (ascii_of_N (a * 16 + b)) (unescape r)
            | _, _ => String c (unescape s')
            end
        | _ => String c (unescape s')
        end
      else String c (unescape s')
  end.

(** [x.replace(/\+/g, '%20')] followed by [unescape]: a [+] is a space. *)
Fixpoint plus_to_space (s : string) : string :=
  match s with
  | EmptyString => ""
  | String c s' =>
      String (if decide (c = "+"%char) then " "%char else c) (plus_to_space s')
  end.

(** The part of [x] before the first [=] and the part after it. *)
Fixpoint split_eq (x : string) : string * string :=
  match x with
  | EmptyString => ("", "")
  | String c x' =>
      if decide (c = "="%char) then ("", x')
      else let '(k, v) := split_eq x' in (String c k, v)
  end.

(** A field of the parsed body: a string, or the array of the values of a
    name given more than once. *)
Inductive qsvalue : Type :=
| QOne (s : string)
| QMany (l : list string).

Definition qs_add (obj : gmap string qsvalue) (k v : string) : gmap string qsvalue :=
  match obj !! k with
  | None => <[k := QOne v]> obj
  | Some (QMany l) => <[k := QMany (l ++ [v])]> obj
  | Some (QOne v0) => <[k := QMany [v0; v]]> obj
  end.

Definition maxKeys : nat := 1000.

Definition querystring_parse (qs : string) : gmap string qsvalue :=
  if decide (qs = "") then ∅
  else
    fold_left
      (λ obj x,
         let '(kstr, vstr) := split_eq x in
         qs_add obj (unescape (plus_to_space kstr)) (unescape (plus_to_space vstr)))
      (take maxKeys (split "&" qs)) ∅.

(** [`${x}`] of a field: an array is joined with commas. *)
Definition qs_to_string (x : qsvalue) : string :=
  match x with
  | QOne s => s
  | QMany l => String.concat "," l
  end.

(* ===================================================================== *)
(** * Requests, responses and the header sanitizer *)
(* ===================================================================== *)

(** The incoming request, as far as the API path reads it. *)
Record request : Type := {
  req_method : string;
  req_url : string;
  req_headers : gmap string string;
}.

(** A header of the origin's response: Node gives one string, or the list
    of the values of a header it keeps apart ([set-cookie]). *)
Inductive header_value : Type :=
| HOne (s : string)
| HMany (l : list string).

(** The origin's response ([http.IncomingMessage] with its [body]). *)
Record incoming : Type := {
  msg_statusCode : Z;
  msg_headers : gmap string header_value;
  msg_body : string;
}.

(** The options handed to [request(opts, callback)]. *)
Record options : Type := {
  opt_method : string;
  opt_url : string;
  opt_body : option string;
  opt_headers : gmap string string;
  opt_encoding : option string;
  opt_timeout : Z;
}.

Section Sanitizer.
Context {A : Type}.

(** [for (var key in origin) headers[key] = origin[key]]. *)
Definition copyHeaders (origin : gmap string A) : gmap string A :=
  map_fold (λ key v headers, <[key := v]> headers) ∅ origin.

Definition removeProxyHeaders (origin : gmap string A) : gmap string A :=
  let headers := copyHeaders origin in
  let headers := delete "connection" headers in
  let headers := delete "proxy-connection" headers in
  let headers := delete "proxy-authenticate" headers in
  let headers := delete "proxy-authorization" headers in
  let headers := delete "host" headers in
  let headers := delete "content-length" headers in
  let headers := delete "cache-token" headers in
  let headers := delete "request-uri" headers in
  headers.

End Sanitizer.

(** The names the sanitizer deletes, as the source writes them. *)
Definition proxyHeaders : list string :=
  [ "connection"; "proxy-connection"; "proxy-authenticate";
    "proxy-authorization"; "host"; "content-length"; "cache-token";
    "request-uri" ].

(** ASCII lower-casing, which Node's HTTP parser applies to the header
    names of every message it reads. *)
Definition lower_ascii (c : ascii) : ascii :=
  let n := N_of_ascii c in
  if ((65 <=? n) && (n <=? 90))%N then ascii_of_N (n + 32) else c.

Fixpoint toLowerCase (s : string) : string :=
  match s with
  | EmptyString => EmptyString
  | String c s' => String (lower_ascii c) (toLowerCase s')
  end.

(** A header object as a JavaScript value. *)
Definition header_to_value (h : header_value) : value :=
  match h with
  | HOne s => VStr s
  | HMany l => VArr (VStr <$> l)
  end.

(** The properties are listed in the order of the map, which need not be
    the order in which Node met the headers: the development does not keep
    the order of the headers of a message. *)
Definition headers_to_value (h : gmap string header_value) : value :=
  VObj (map_to_list (header_to_value <$> h)).

(* ===================================================================== *)
(** * The store, the origin and the effects of a request *)
(* ===================================================================== *)

(** What a run does to the outside, in order. *)
Inductive event : Type :=
| DbGet (key : string)
| DbPut (key val : string)
| Fetch (opts : options).

(** The key-value store and the effects so far. *)
Record world : Type := {
  store : gmap string string;
  trace : list event;
}.

(** A computation that reads and writes the world and may throw. *)
Definition M (A : Type) : Type := world → result A * world.

#[global] Instance result_ret : MRet result := λ A a, Ok a.
#[global] Instance result_bind : MBind result := λ A B f m,
  match m with
  | Ok a => f a
  | Throw e => Throw e
  end.

#[global] Instance M_ret : MRet M := λ A a w, (Ok a, w).
#[global] Instance M_bind : MBind M := λ A B f m w,
  match m w with
  | (Ok a, w') => f a w'
  | (Throw e, w') => (Throw e, w')
  end.

Definition throw {A : Type} (e : exn) : M A := λ w, (Throw e, w).

Definition lift {A : Type} (r : result A) : M A := λ w, (r, w).

(** [try { body } catch (err) { handler }]. *)
Definition try_catch {A : Type} (body : M A) (handler : exn → M A) : M A :=
  λ w,
    match body w with
    | (Ok a, w') => (Ok a, w')
    | (Throw e, w') => handler e w'
    end.

Definition emit (e : event) (w : world) : world :=
  {| store := store w; trace := trace w ++ [e] |}.

(** Modelled from the spec: the module [./db] is not among the sources; by
    the store contract, [get(key)] gives the string stored under [key] or
    nothing, and does not change the store. *)
Definition db_get (key : string) : M (option string) :=
  λ w, (Ok (store w !! key), emit (DbGet key) w).

(** Modelled from the spec: the module [./db] is not among the sources; by
    the store contract, [put(key, value)] stores [value] under [key].  The
    coordinator does not wait for a [put]; the writes reach the store in
    the order in which they are issued. *)
Definition db_put (key val : string) : M unit :=
  λ w, (Ok (), emit (DbPut key val) {| store := <[key := val]> (store w); trace := trace w |}).

Section Coordinator.

Variable Buffer_from_other : value → result value.

(** The origin: what [request(opts, callback)] calls back with, a response
    or an error (connection refused or reset, time out). *)
Variable origin : options → result incoming.

(** [makeRequest]: the promise resolves with the response and rejects with
    the error. *)
Definition makeRequest (opts : options) : M incoming :=
  λ w, (origin opts, emit (Fetch opts) w).

Definition makeAPIRequest (req : request) (body : string) (id : string) : M value :=
  locked ← db_get "lock";
  if decide (locked = Some "true") then throw (Error "unavailable")
  else
    data ← db_get id;
    if decide (data = Some "__REQUEST__") then throw (Error "unavailable")
    else if decide (data = Some "__BLOCK__") then throw (Error "gone")
    else
      match data with
      | Some data =>
          try_catch
            (lift (JSON_parse data (reviver Buffer_from_other)))
            (λ err, throw (Error "gone"))
      | None =>
          try_catch
            (db_put id "__REQUEST__";;
             rr ← makeRequest
                    {| opt_method := req_method req;
                       opt_url := req_url req;
                       opt_body := if (0 <? String.length body)%nat then Some body else None;
                       opt_headers := removeProxyHeaders (req_headers req);
                       opt_encoding := None;
                       opt_timeout := 180000 |};
             let cacheObj :=
               VObj [ ("statusCode", VNum (msg_statusCode rr));
                      ("headers", headers_to_value (removeProxyHeaders (msg_headers rr)));
                      ("content", VBuffer (msg_body rr)) ] in
             db_put id (JSON_stringify cacheObj);;
             mret cacheObj)
            (λ err,
               db_put id "__BLOCK__";;
               throw (Error "gone"))
      end.

Definition getRequestId (req : request) (body : string) : result string :=
  let bodyp := querystring_parse body in
  let user := bodyp !! "api_token" in
  let token := req_headers req !! "cache-token" in
  match user, token with
  | Some user, Some token => Ok (qs_to_string user +:+ "-" +:+ token)
  | _, _ => Throw (Error "forbidden")
  end.

(** What the handler hands to [res.writeHead] and [res.end]; [None] is
    [undefined]. *)
Record response : Type := {
  res_statusCode : option value;
  res_headers : option value;
  res_content : option value;
}.

Definition responseError (code : Z) : string :=
  if code =? 403 then "<h1>HTTP 403 - Forbidden</h1>参数错误或无访问权限。"
  else if code =? 410 then "<h1>HTTP 410 - Gone</h1>获取数据失败。"
  else if code =? 500 then "<h1>HTTP 500 - Internal Server Error</h1>服务器内部执行过程中遇到错误。请向webmaster提交错误报告以解决问题。"
  else if code =? 503 then "<h1>HTTP 503 - Service Unavailable</h1>暂未获取到数据。请稍后再试。"
  else "undefined".

Definition renderErrorPage (code : Z) : response :=
  {| res_statusCode := Some (VNum code);
     res_headers := Some (VObj [("content-type", VStr "text/html")]);
     res_content :=
       Some (VStr ("<!DOCTYPE html><html><head><meta charset=" +:+ String DQUOTE "UTF-8"
                   +:+ String DQUOTE "></head><body>"
                   +:+ responseError code
                   +:+ "<hr/>Powered by KCSP Server</body></html>")) |}.

(** The [switch] of the [catch] clause of [onAPIRequest]. *)
Definition errCode (err : exn) : Z :=
  if decide (message err = "unavailable") then 503
  else if decide (message err = "gone") then 410
  else if decide (message err = "forbidden") then 403
  else 500.

(** [res.writeHead(data.statusCode, data.headers); res.end(data.content)].
    Reading a property of [null] throws.  [res.writeHead] throws for a
    status code that is [undefined] or [null] (a [RangeError] since Node 6,
    a [TypeError] before: either way inside the [try] of the handler and
    with a message that is none of the three of the [switch]).  For a
    status code that is there, the response is the three arguments as they
    are handed over: what the HTTP layer makes of arguments that
    [makeAPIRequest] does not build from a response of the origin (a
    status code that is not a number from 100 to 999, headers or a content
    of another type) differs between the releases of Node and is not
    modelled. *)
Definition respond (data : value) : result response :=
  sc ← member data "statusCode";
  hs ← member data "headers";
  ct ← member data "content";
  match sc with
  | None => Throw (RangeError "Invalid status code: undefined")
  | Some VNull => Throw (RangeError "Invalid status code: null")
  | Some _ => mret {| res_statusCode := sc; res_headers := hs; res_content := ct |}
  end.

(** The handler of an API request, once the whole body has arrived. *)
Definition onAPIRequest (req : request) (body : string) : world → response * world :=
  λ w,
    match
      (id ← lift (getRequestId req body);
       data ← makeAPIRequest req body id;
       lift (respond data)) w
    with
    | (Ok r, w') => (r, w')
    | (Throw err, w') => (renderErrorPage (errCode err), w')
    end.

End Coordinator.

(* ===================================================================== *)
(** * The plain relay *)
(* ===================================================================== *)

(** What [url.parse] returns, as far as [onRequest] and [isGameAPI] read
    it; [None] is [null]. *)
Record urlObject : Type := {
  url_protocol : option string;
  url_hostname : option string;
  url_port : option string;
  url_pathname : option string;
  url_path : option string;
}.

(** The options that [onRequest] hands to [http.request]. *)
Record relay_options : Type := {
  ropt_method : string;
  ropt_protocol : option string;
  ropt_hostname : option string;
  ropt_port : option string;
  ropt_path : option string;
  ropt_headers : gmap string string;
}.

(** What [onRequest] does with a request: it hands it to [onAPIRequest],
    or it relays it with these options. *)
Inductive handling : Type :=
| ToAPI
| ToRelay (opts : relay_options).

(** [s.startsWith(p)]. *)
Definition startsWith (s p : string) : bool :=
  match strip_prefix p s with
  | Some _ => true
  | None => false
  end.

Section Relay.

(** [url.parse] of Node's [url] module: the development is parametric in
    it. *)
Variable url_parse : string → urlObject.

Definition isGameAPI (req : request) : result bool :=
  let urlp := url_parse (req_url req) in
  match url_pathname urlp with
  | Some pathname => Ok (startsWith pathname "/kcsapi/")
  | None => Throw (TypeError "Cannot read property 'startsWith' of null")
  end.

Definition onRequest (req : request) : result handling :=
  api ← isGameAPI req;
  if api : bool then mret ToAPI
  else
    let urlp := url_parse (req_url req) in
    mret (ToRelay {| ropt_method := req_method req;
                     ropt_protocol := url_protocol urlp;
                     ropt_hostname := url_hostname urlp;
                     ropt_port := url_port urlp;
                     ropt_path := url_path urlp;
                     ropt_headers := removeProxyHeaders (req_headers req) |}).

End Relay.

(** The head of the relayed response:
    [res.writeHead(rRes.statusCode, removeProxyHeaders(rRes.headers))]. *)
Definition relay_head (rRes : incoming) : Z * gmap string header_value :=
  (msg_statusCode rRes, removeProxyHeaders (msg_headers rRes)).

(** The four readings of a store entry, as the tests of [makeAPIRequest]
    on [data] tell them apart. *)
Inductive entry : Type :=
| ABSENT
| PENDING
| BLOCKED
| READY (payload : string).

Definition interpret (data : option string) : entry :=
  match data with
  | None => ABSENT
  | Some d =>
      if decide (d = "__REQUEST__") then PENDING
      else if decide (d = "__BLOCK__") then BLOCKED
      else READY d
  end.

(** The options of the one origin fetch of [makeAPIRequest]. *)
Definition fetch_options (req : request) (body : string) : options :=
  {| opt_method := req_method req;
     opt_url := req_url req;
     opt_body := if (0 <? String.length body)%nat then Some body else None;
     opt_headers := removeProxyHeaders (req_headers req);
     opt_encoding := None;
     opt_timeout := 180000 |}.

(** The object [makeAPIRequest] caches for a response of the origin. *)
Definition cacheObj (rr : incoming) : value :=
  VObj [ ("statusCode", VNum (msg_statusCode rr));
         ("headers", headers_to_value (removeProxyHeaders (msg_headers rr)));
         ("content", VBuffer (msg_body rr)) ].

Definition is_put (e : event) : bool :=
  match e with DbPut _ _ => true | _ => false end.
Definition is_get (e : event) : bool :=
  match e with DbGet _ => true | _ => false end.
Definition is_fetch (e : event) : bool :=
  match e with Fetch _ => true | _ => false end.

(** The token that the quoted form of a character is read back as. *)
Definition char_token (c : ascii) : strtok :=
  let n := N_of_ascii c in
  if (n <? 32)%N && negb ((n =? 8) || (n =? 9) || (n =? 10) || (n =? 12) || (n =? 13))%N
  then Unit16 n else Raw c.

(** The text between the brackets of an array and between the braces of
    an object, as [JSON_stringify] writes it. *)
Fixpoint stringify_elems (l : list value) : string :=
  match l with
  | [] => ""
  | x :: l' =>
      JSON_stringify x +:+
      match l' with [] => "" | _ => "," +:+ stringify_elems l' end
  end.

Fixpoint stringify_props (l : list (string * value)) : string :=
  match l with
  | [] => ""
  | (k, x) :: l' =>
      quote k +:+ ":" +:+ JSON_stringify x +:+
      match l' with [] => "" | _ => "," +:+ stringify_props l' end
  end.

(** The walks of [internalize] over the elements of an array and over the
    properties of an object. *)
Fixpoint internalize_elems (reviver : string → value → result value)
    (i : Z) (l : list value) : result (list value) :=
  match l with
  | [] => Ok []
  | x :: l' =>
      match internalize reviver (number_to_string i) x with
      | Ok x' =>
          match internalize_elems reviver (i + 1) l' with
          | Ok l'' => Ok (x' :: l'')
          | Throw e => Throw e
          end
      | Throw e => Throw e
      end
  end.

Fixpoint internalize_props (reviver : string → value → result value)
    (l : list (string * value)) : result (list (string * value)) :=
  match l with
  | [] => Ok []
  | (k, x) :: l' =>
      match internalize reviver k x with
      | Ok x' =>
          match internalize_props reviver l' with
          | Ok l'' => Ok ((k, x') :: l'')
          | Throw e => Throw e
          end
      | Throw e => Throw e
      end
  end.

(** The value that the JSON text of [v] denotes: [v] with every [Buffer]
    replaced by what its [toJSON] returns. *)
Fixpoint jsonify (v : value) : value :=
  match v with
  | VArr elems => VArr (map jsonify elems)
  | VObj props => VObj (map (λ p, (p.1, jsonify p.2)) props)
  | VBuffer bytes => Buffer_toJSON bytes
  | _ => v
  end.

(** Values without a literal kept as written, whose objects name each
    property once: what the program builds, as opposed to what it may
    read. *)
Fixpoint well_formed (v : value) : Prop :=
  match v with
  | VReal _ _ _ _ => False
  | VArr elems =>
      (fix all (l : list value) : Prop :=
         match l with
         | [] => True
         | x :: l' => well_formed x ∧ all l'
         end) elems
  | VObj props =>
      NoDup props.*1 ∧
      (fix all (l : list (string * value)) : Prop :=
         match l with
         | [] => True
         | p :: l' => well_formed p.2 ∧ all l'
         end) props
  | _ => True
  end.

(** No object of [v] carries the property [type] with the string
    [Buffer], by which the reviver tells a serialized [Buffer]. *)
Fixpoint untagged (v : value) : Prop :=
  match v with
  | VArr elems =>
      (fix all (l : list value) : Prop :=
         match l with
         | [] => True
         | x :: l' => untagged x ∧ all l'
         end) elems
  | VObj props =>
      get (VObj props) "type" ≠ Some (VStr "Buffer") ∧
      (fix all (l : list (string * value)) : Prop :=
         match l with
         | [] => True
         | p :: l' => untagged p.2 ∧ all l'
         end) props
  | _ => True
  end.

(** Fuel that suffices to parse the text of a value. *)
Fixpoint cost (v : value) : nat :=
  match v with
  | VArr elems =>
      S ((fix sum (l : list value) : nat :=
            match l with
            | [] => O
            | x :: l' => S (cost x + sum l')
            end) elems)
  | VObj props =>
      S ((fix sum (l : list (string * value)) : nat :=
            match l with
            | [] => O
            | p :: l' => S (cost p.2 + sum l')
            end) props)
  | VBuffer bytes => (6 + 2 * String.length bytes)%nat
  | _ => 1%nat
  end.

(** The text ends a value: it is empty or goes on with a comma or a
    closing bracket or brace. *)
Definition delimited (rest : string) : bool :=
  match rest with
  | EmptyString => true
  | String c _ =>
      match N_of_ascii c with
      | 44%N | 93%N | 125%N => true
      | _ => false
      end
  end.

(** [v] is read back: the parser, given enough fuel, reads the text of [v]
    followed by a delimiter as the value that text denotes, and stops at
    the delimiter. *)
Definition parses_back (v : value) : Prop :=
  well_formed v →
  ∀ f rest, (cost v ≤ f)%nat → delimited rest = true →
    parse_value f (JSON_stringify v +:+ rest) = Parsed (jsonify v) rest.

(** [v] is revived: the walk of [JSON.parse] with the reviver of
    [makeAPIRequest] turns the value that the text of [v] denotes back
    into [v]. *)
Definition revives (Buffer_from_other : value → result value) (v : value) : Prop :=
  untagged v →
  ∀ key, internalize (reviver Buffer_from_other) key (jsonify v) = Ok v.

(** A hyphen occurs in [s]. *)
Fixpoint has_hyphen (s : string) : bool :=
  match s with
  | EmptyString => false
  | String c s' => if decide (c = "-"%char) then true else has_hyphen s'
  end.

(** The world after a [put]. *)
Definition put (key val : string) (w : world) : world :=
  emit (DbPut key val) {| store := <[key := val]> (store w); trace := trace w |}.

(* ===================================================================== *)
(** * The body as text, and histories of requests *)
(* ===================================================================== *)

(** The fields of a form-encoded body that [querystring.parse] reads: the
    parts between ampersands, the first [maxKeys] of them; the empty body
    has none. *)
Definition body_fields (body : string) : list string :=
  if decide (body = "") then [] else take maxKeys (split "&" body).

(** The decoded name and the decoded value of a field. *)
Definition field_name (x : string) : string := unescape (plus_to_space (split_eq x).1).
Definition field_value (x : string) : string := unescape (plus_to_space (split_eq x).2).

(** The decoded values of the fields of a body that carry the name [k], in
    the order of the body. *)
Definition values_of (k : string) (fields : list string) : list string :=
  field_value <$> filter (λ x, field_name x = k) fields.

(** The property that [querystring.parse] gives an object for the values of
    one name: none, the string, or the array of them. *)
Definition qs_of (vs : list string) : option qsvalue :=
  match vs with
  | [] => None
  | [v] => Some (QOne v)
  | _ => Some (QMany vs)
  end.

(** No character of [s] is an ampersand, a percent sign or a plus sign: as
    the value of a field, [s] stands for itself. *)
Fixpoint plain (s : string) : bool :=
  match s with
  | EmptyString => true
  | String c s' =>
      negb (bool_decide (c = "&"%char ∨ c = "%"%char ∨ c = "+"%char)) && plain s'
  end.

(** Every character of [s] is an ASCII character: [s] is the same as bytes
    ([Buffer]) and as text, and where it is the result of [unescape], no
    byte had to be replaced. *)
Fixpoint ascii_text (s : string) : bool :=
  match s with
  | EmptyString => true
  | String c s' => (N_of_ascii c <? 128)%N && ascii_text s'
  end.

(** The API requests of a list, handled one after the other, each to its
    response before the next begins; each comes with the behaviour of the
    origin at its time. *)
Fixpoint serve (Buffer_from_other : value → result value)
    (calls : list ((options → result incoming) * request * string)) (w : world)
  : list response * world :=
  match calls with
  | [] => ([], w)
  | (origin, req, body) :: calls' =>
      let '(r, w1) := onAPIRequest Buffer_from_other origin req body w in
      let '(rs, w2) := serve Buffer_from_other calls' w1 in
      (r :: rs, w2)
  end.

(** The write of the PENDING sentinel, under any key and under [id]. *)
Definition is_pending_put (e : event) : bool :=
  match e with
  | DbPut _ v => bool_decide (v = "__REQUEST__")
  | _ => false
  end.

Definition is_pending_put_of (id : string) (e : event) : bool :=
  match e with
  | DbPut k v => bool_decide (k = id) && bool_decide (v = "__REQUEST__")
  | _ => false
  end.

(** Sample inputs. *)
Definition no_other_Buffer : value → result value :=
  λ _, Throw (TypeError "argument must be a string, Buffer, Array, or array-like object").
Definition origin_down : options → result incoming :=
  λ _, Throw (Error "ETIMEDOUT").
Definition origin_ok : options → result incoming :=
  λ _, Ok {| msg_statusCode := 200;
             msg_headers := {[ "content-type" := HOne "text/plain";
                               "connection" := HOne "close" ]};
             msg_body := "ok" |}.
Definition origin_tagged : options → result incoming :=
  λ _, Ok {| msg_statusCode := 200;
             msg_headers := {[ "content-type" := HOne "text/plain";
                               "type" := HOne "Buffer" ]};
             msg_body := "ok" |}.
Definition sample_request : request :=
  {| req_method := "POST";
     req_url := "http://example.com/kcsapi/api_port/port";
     req_headers := {[ "cache-token" := "t1"; "host" := "example.com" ]} |}.
Definition world_of (s : gmap string string) : world := {| store := s; trace := [] |}.
Definition other_request : request :=
  {| req_method := "GET";
     req_url := "http://example.com/kcsapi/api_get_member/ship";
     req_headers := {[ "cache-token" := "t1"; "user-agent" := "kcsp" ]} |}.

(* ===================================================================== *)
(** * Properties of the header sanitizer *)
(* ===================================================================== *)

Section SanitizerFacts.
Context {A : Type}.
Implicit Types (h : gmap string A) (k : string).

Lemma copyHeaders_id h : copyHeaders h = h.
Proof.
  unfold copyHeaders.
  induction h as [|k v m Hk Hfold IH] using map_first_key_ind.
  - apply map_fold_empty.
  - rewrite map_fold_insert_first_key by assumption. by rewrite IH.
Qed.

Lemma removeProxyHeaders_lookup h k :
  removeProxyHeaders h !! k = if decide (k ∈ proxyHeaders) then None else h !! k.
Proof.
  unfold removeProxyHeaders, proxyHeaders. rewrite copyHeaders_id.
  case_decide as Hk.
  - repeat (apply elem_of_cons in Hk as [->|Hk];
            [repeat (rewrite lookup_delete_ne by discriminate);
             apply lookup_delete_eq|]).
    by apply elem_of_nil in Hk.
  - rewrite !lookup_delete_ne; [done|..];
      intros <-; apply Hk; set_solver.
Qed.

Lemma removeProxyHeaders_removed h k :
  k ∈ proxyHeaders → removeProxyHeaders h !! k = None.
Proof. intros Hk. rewrite removeProxyHeaders_lookup. by rewrite decide_True. Qed.

Lemma removeProxyHeaders_kept h k :
  k ∉ proxyHeaders → removeProxyHeaders h !! k = h !! k.
Proof. intros Hk. rewrite removeProxyHeaders_lookup. by rewrite decide_False. Qed.

Lemma removeProxyHeaders_lowercase h k :
  (∀ k', is_Some (h !! k') → toLowerCase k' = k') →
  toLowerCase k ∈ proxyHeaders →
  removeProxyHeaders h !! k = None.
Proof.
  intros Hlow Hk. rewrite removeProxyHeaders_lookup.
  case_decide; [done|].
  destruct (h !! k) eqn:Hhk; [|done].
  rewrite Hlow in Hk by (by rewrite Hhk). contradiction.
Qed.

End SanitizerFacts.

Lemma find_key_NoDup {V : Type} (l : list (string * V)) k v :
  NoDup l.*1 → (k, v) ∈ l →
  List.find (λ p, bool_decide (p.1 = k)) l = Some (k, v).
Proof.
  induction l as [|[k' v'] l IH]; intros Hnd Hin.
  - by apply elem_of_nil in Hin.
  - apply NoDup_cons in Hnd as [Hk' Hnd]. cbn [List.find fst].
    apply elem_of_cons in Hin as [[= <- <-]|Hin].
    + by rewrite bool_decide_eq_true_2.
    + rewrite bool_decide_eq_false_2; [by apply IH|].
      intros ->. apply Hk'. apply list_elem_of_fmap. by exists (k, v).
Qed.

Lemma find_key_None {V : Type} (l : list (string * V)) k :
  k ∉ l.*1 → List.find (λ p, bool_decide (p.1 = k)) l = None.
Proof.
  induction l as [|[k' v'] l IH]; intros Hk; [done|].
  cbn [List.find fst]. rewrite fmap_cons, not_elem_of_cons in Hk.
  destruct Hk as [Hne Hk]. rewrite bool_decide_eq_false_2 by done. by apply IH.
Qed.

Lemma find_key_map_to_list {V : Type} (m : gmap string V) k :
  List.find (λ p, bool_decide (p.1 = k)) (map_to_list m) = (k,.) <$> m !! k.
Proof.
  destruct (m !! k) as [v|] eqn:Hk; cbn [fmap option_fmap option_map].
  - apply find_key_NoDup; [apply NoDup_fst_map_to_list|].
    by apply elem_of_map_to_list.
  - apply find_key_None. intros Hin.
    apply list_elem_of_fmap in Hin as ([k' v] & -> & Hin).
    apply elem_of_map_to_list in Hin. cbn [fst] in Hk. congruence.
Qed.

Lemma get_headers_to_value (h : gmap string header_value) k :
  get (headers_to_value h) k = header_to_value <$> h !! k.
Proof.
  unfold headers_to_value, get. rewrite find_key_map_to_list, lookup_fmap.
  by destruct (h !! k).
Qed.

(* ===================================================================== *)
(** * [JSON.parse] reads back what [JSON.stringify] writes *)
(* ===================================================================== *)

(** Case analysis on the 256 characters, and on a text that ends a
    value. *)
Ltac each_char c := destruct c as [[] [] [] [] [] [] [] []].

Ltac by_delimiter rest H :=
  destruct rest as [|[[] [] [] [] [] [] [] []] rest]; try discriminate H; clear H.

Section JSONText.

(** ** String literals *)


Lemma string_app_assoc (a b c : string) : (a +:+ b) +:+ c = a +:+ (b +:+ c).
Proof.
  induction a as [|x a IH]; [done|].
  change (String x ((a +:+ b) +:+ c) = String x (a +:+ b +:+ c)). by rewrite IH.
Qed.

Lemma scan_string_quote_char c s :
  scan_string (quote_char c +:+ s) =
    match scan_string s with
    | Some (ts, rest) => Some (char_token c :: ts, rest)
    | None => None
    end.
Proof. destruct c as [[] [] [] [] [] [] [] []]; reflexivity. Qed.

Lemma string_of_tokens_char_token c ts :
  string_of_tokens (char_token c :: ts) = String c (string_of_tokens ts).
Proof.
  destruct c as [[] [] [] [] [] [] [] []]; try reflexivity;
    destruct ts as [|[?|?] ?]; reflexivity.
Qed.

Lemma parse_string_quote_body str rest :
  parse_string (quote_body str +:+ String DQUOTE rest) = Some (str, rest).
Proof.
  unfold parse_string.
  induction str as [|c str IH]; [reflexivity|].
  change (quote_body (String c str)) with (quote_char c +:+ quote_body str).
  rewrite string_app_assoc, scan_string_quote_char.
  destruct (scan_string _) as [[ts r]|]; [|discriminate].
  injection IH as IH ->. by rewrite string_of_tokens_char_token, IH.
Qed.


(** ** Number literals *)

Lemma scan_digits_print u rest :
  delimited rest = true →
  scan_digits (NilEmpty.string_of_uint u +:+ rest) = (u, rest).
Proof.
  intros Hrest. induction u as [|u IH|u IH|u IH|u IH|u IH|u IH|u IH|u IH|u IH|u IH];
    [by by_delimiter rest Hrest|..];
    lazymatch goal with
    | |- scan_digits (NilEmpty.string_of_uint (?D u) +:+ rest) = _ =>
        transitivity (let '(u', r) := scan_digits (NilEmpty.string_of_uint u +:+ rest) in (D u', r));
        [reflexivity|by rewrite IH]
    end.
Qed.

Lemma int_digits_ok_nzhead u : nzhead u = Nil ∨ (nzhead u ≠ Nil ∧ int_digits_ok (nzhead u) = true ∧ nzhead (nzhead u) = nzhead u).
Proof.
  induction u as [|u IH|u _|u _|u _|u _|u _|u _|u _|u _|u _];
    [by left|exact IH|right; split_and!; [discriminate|reflexivity|reflexivity]..].
Qed.

Lemma int_digits_ok_unorm u : int_digits_ok (unorm u) = true.
Proof.
  unfold unorm. destruct (int_digits_ok_nzhead u) as [->|(Hn & Hok & _)]; [done|].
  by destruct (nzhead u).
Qed.

Lemma to_int_digits z :
  match Z.to_int z with
  | Pos d => int_digits_ok d = true
  | Neg d => int_digits_ok d = true ∧ z < 0
  end.
Proof.
  pose proof (DecimalZ.to_of (Z.to_int z)) as Hn. rewrite DecimalZ.of_to in Hn.
  destruct z as [|p|p]; cbn [Z.to_int] in *.
  - done.
  - injection Hn as Hn. rewrite Hn. apply int_digits_ok_unorm.
  - split; [|lia]. cbn [norm] in Hn.
    destruct (int_digits_ok_nzhead (Pos.to_uint p)) as [Hz|(_ & Hok & _)].
    + by rewrite Hz in Hn.
    + destruct (nzhead (Pos.to_uint p)); try done; injection Hn as Hn; by rewrite Hn.
Qed.

Lemma print_uint_head d rest :
  int_digits_ok d = true →
  ∃ c s, NilEmpty.string_of_uint d +:+ rest = String c s ∧
         is_Some (digit_of c).
Proof.
  destruct d; try discriminate; intros _; eexists _, _; (split; [reflexivity|]); by eexists.
Qed.

Lemma number_tail_delimited neg i rest :
  delimited rest = true →
  number_tail neg i rest = Some (VNum (Z.of_int (if neg then Neg i else Pos i)), rest).
Proof. intros Hrest. by by_delimiter rest Hrest. Qed.

Lemma parse_number_print z rest :
  delimited rest = true →
  parse_number (number_to_string z +:+ rest) = Some (VNum z, rest).
Proof.
  intros Hrest. unfold number_to_string.
  pose proof (to_int_digits z) as Hd. pose proof (DecimalZ.of_to z) as Hz.
  destruct (Z.to_int z) as [d|d].
  - assert (NilZero.string_of_int (Pos d) = NilEmpty.string_of_uint d) as ->.
    { by destruct d. }
    destruct (print_uint_head d rest Hd) as (c & s & Hs & Hc).
    unfold parse_number.
    assert (scan_sign (NilEmpty.string_of_uint d +:+ rest)
            = (false, NilEmpty.string_of_uint d +:+ rest)) as ->.
    { rewrite Hs. destruct c as [[] [] [] [] [] [] [] []]; try reflexivity.
      by destruct Hc as [? [=]]. }
    cbv beta iota.
    rewrite scan_digits_print, Hd, number_tail_delimited by done.
    by rewrite <- Hz.
  - destruct Hd as [Hd Hneg].
    assert (NilZero.string_of_int (Neg d) +:+ rest
            = String "-" (NilEmpty.string_of_uint d +:+ rest)) as ->.
    { by destruct d. }
    unfold parse_number.
    change (scan_sign (String "-" (NilEmpty.string_of_uint d +:+ rest)))
      with (true, NilEmpty.string_of_uint d +:+ rest).
    cbv beta iota.
    rewrite scan_digits_print, Hd, number_tail_delimited by done.
    by rewrite <- Hz.
Qed.


(** ** Induction on values *)

Lemma value_induction (P : value → Prop) :
  P VNull →
  (∀ b, P (VBool b)) →
  (∀ n, P (VNum n)) →
  (∀ neg i f e, P (VReal neg i f e)) →
  (∀ s, P (VStr s)) →
  (∀ l, Forall P l → P (VArr l)) →
  (∀ o, Forall (λ p, P p.2) o → P (VObj o)) →
  (∀ b, P (VBuffer b)) →
  ∀ v, P v.
Proof.
  intros Hnull Hbool Hnum Hreal Hstr Harr Hobj Hbuf.
  fix IH 1. intros [|b|n|neg i f e|s|l|o|b].
  - exact Hnull.
  - apply Hbool.
  - apply Hnum.
  - apply Hreal.
  - apply Hstr.
  - apply Harr. induction l as [|x l IHl]; constructor; [apply IH|exact IHl].
  - apply Hobj. induction o as [|[k x] o IHo]; constructor; [apply IH|exact IHo].
  - apply Hbuf.
Qed.

Lemma stringify_VArr l : JSON_stringify (VArr l) = "[" +:+ stringify_elems l +:+ "]".
Proof. reflexivity. Qed.

Lemma stringify_VObj o : JSON_stringify (VObj o) = "{" +:+ stringify_props o +:+ "}".
Proof. reflexivity. Qed.


(** ** Literals, strings and numbers as values *)

Lemma string_app_nil_r (a : string) : a +:+ "" = a.
Proof.
  induction a as [|x a IH]; [done|].
  change (String x (a +:+ "") = String x a). by rewrite IH.
Qed.

Lemma string_app_snoc (a : string) c (b : string) :
  (a +:+ String c "") +:+ b = a +:+ String c b.
Proof. by rewrite string_app_assoc. Qed.

Lemma skip_ws_head c s : is_ws c = false → skip_ws (String c s) = String c s.
Proof. intros H. change (skip_ws (String c s)) with (if is_ws c then skip_ws s else String c s). by rewrite H. Qed.

Lemma starts_with_other c c' s : c' ≠ c → starts_with c (String c' s) = None.
Proof. intros H. unfold starts_with. by rewrite decide_False. Qed.

(** ** Leaves *)

Lemma parse_value_null f rest : parse_value (S f) ("null" +:+ rest) = Parsed VNull rest.
Proof. reflexivity. Qed.

Lemma parse_value_bool f b rest :
  parse_value (S f) (JSON_stringify (VBool b) +:+ rest) = Parsed (VBool b) rest.
Proof. by destruct b. Qed.

Lemma parse_value_string f s rest :
  parse_value (S f) (quote s +:+ rest) = Parsed (VStr s) rest.
Proof.
  unfold quote.
  change (parse_value (S f) (String DQUOTE ((quote_body s +:+ String DQUOTE "") +:+ rest))
          = Parsed (VStr s) rest).
  rewrite string_app_assoc.
  change (match parse_string (quote_body s +:+ String DQUOTE rest) with
          | Some (str, r) => Parsed (VStr str) r
          | None => Unexpected
          end = Parsed (VStr s) rest).
  by rewrite parse_string_quote_body.
Qed.

Lemma number_to_string_head z :
  ∃ c s, number_to_string z = String c s ∧ (is_Some (digit_of c) ∨ c = "-"%char).
Proof.
  unfold number_to_string. pose proof (to_int_digits z) as Hd.
  destruct (Z.to_int z) as [d|d].
  - destruct d; try discriminate; eexists _, _; (split; [reflexivity|]); left; by eexists.
  - destruct d; eexists _, _; (split; [reflexivity|]); by right.
Qed.

Lemma parse_value_number f z rest :
  delimited rest = true →
  parse_value (S f) (number_to_string z +:+ rest) = Parsed (VNum z) rest.
Proof.
  intros Hrest. pose proof (parse_number_print z rest Hrest) as Hp.
  destruct (number_to_string_head z) as (c & s & Hs & Hc). rewrite Hs in *.
  transitivity (match parse_number (String c s +:+ rest) with
                | Some (v, r) => Parsed v r
                | None => @Unexpected value
                end); [|by rewrite Hp].
  destruct Hc as [[d Hd]| ->]; [|reflexivity].
  destruct c as [[] [] [] [] [] [] [] []]; try discriminate Hd; reflexivity.
Qed.



(** ** Arrays and objects, one step at a time *)

Lemma parse_value_array f body :
  parse_value (S f) (String "[" body) =
    match starts_with "]" (skip_ws body) with
    | Some r => Parsed (VArr []) r
    | None =>
        match parse_elements f body with
        | Parsed vs r => Parsed (VArr vs) r
        | Unexpected => Unexpected
        | Exhausted => Exhausted
        end
    end.
Proof. reflexivity. Qed.

Lemma parse_value_object f body :
  parse_value (S f) (String "{" body) =
    match starts_with "}" (skip_ws body) with
    | Some r => Parsed (VObj []) r
    | None =>
        match parse_members f body with
        | Parsed ms r => Parsed (VObj (obj_of_members ms)) r
        | Unexpected => Unexpected
        | Exhausted => Exhausted
        end
    end.
Proof. reflexivity. Qed.

Lemma parse_elements_last f s v r :
  parse_value f s = Parsed v (String "]" r) →
  parse_elements (S f) s = Parsed [v] r.
Proof.
  intros H.
  change (parse_elements (S f) s) with
    (match parse_value f s with
     | Parsed v r =>
         match skip_ws r with
         | String "," r' =>
             match parse_elements f r' with
             | Parsed vs r'' => Parsed (v :: vs) r''
             | Unexpected => Unexpected
             | Exhausted => Exhausted
             end
         | String "]" r' => Parsed [v] r'
         | _ => Unexpected
         end
     | Unexpected => Unexpected
     | Exhausted => Exhausted
     end).
  by rewrite H.
Qed.

Lemma parse_elements_comma f s v r vs r' :
  parse_value f s = Parsed v (String "," r) →
  parse_elements f r = Parsed vs r' →
  parse_elements (S f) s = Parsed (v :: vs) r'.
Proof.
  intros H H'.
  change (parse_elements (S f) s) with
    (match parse_value f s with
     | Parsed v r =>
         match skip_ws r with
         | String "," r' =>
             match parse_elements f r' with
             | Parsed vs r'' => Parsed (v :: vs) r''
             | Unexpected => Unexpected
             | Exhausted => Exhausted
             end
         | String "]" r' => Parsed [v] r'
         | _ => Unexpected
         end
     | Unexpected => Unexpected
     | Exhausted => Exhausted
     end).
  rewrite H.
  change (match parse_elements f r with
          | Parsed vs r'' => Parsed (v :: vs) r''
          | Unexpected => Unexpected
          | Exhausted => Exhausted
          end = Parsed (v :: vs) r').
  by rewrite H'.
Qed.

Lemma parse_members_step f k s :
  parse_members (S f) (quote k +:+ String ":" s) =
    match parse_value f s with
    | Parsed v r =>
        match skip_ws r with
        | String "," r' =>
            match parse_members f r' with
            | Parsed ms r'' => Parsed ((k, v) :: ms) r''
            | Unexpected => Unexpected
            | Exhausted => Exhausted
            end
        | String "}" r' => Parsed [(k, v)] r'
        | _ => Unexpected
        end
    | Unexpected => Unexpected
    | Exhausted => Exhausted
    end.
Proof.
  unfold quote.
  change (String DQUOTE (quote_body k +:+ String DQUOTE "") +:+ String ":" s)
    with (String DQUOTE ((quote_body k +:+ String DQUOTE "") +:+ String ":" s)).
  rewrite string_app_snoc.
  transitivity (match parse_string (quote_body k +:+ String DQUOTE (String ":" s)) with
          | Some (k, s2) =>
              match skip_ws s2 with
              | String ":" s3 =>
                  match parse_value f s3 with
                  | Parsed v r =>
                      match skip_ws r with
                      | String "," r' =>
                          match parse_members f r' with
                          | Parsed ms r'' => Parsed ((k, v) :: ms) r''
                          | Unexpected => Unexpected
                          | Exhausted => Exhausted
                          end
                      | String "}" r' => Parsed [(k, v)] r'
                      | _ => Unexpected
                      end
                  | Unexpected => Unexpected
                  | Exhausted => Exhausted
                  end
              | _ => Unexpected
              end
          | None => Unexpected
          end); [reflexivity|].
  by rewrite parse_string_quote_body.
Qed.

Lemma parse_members_last f k s v r :
  parse_value f s = Parsed v (String "}" r) →
  parse_members (S f) (quote k +:+ String ":" s) = Parsed [(k, v)] r.
Proof. intros H. rewrite parse_members_step. by rewrite H. Qed.

Lemma parse_members_comma f k s v r ms r' :
  parse_value f s = Parsed v (String "," r) →
  parse_members f r = Parsed ms r' →
  parse_members (S f) (quote k +:+ String ":" s) = Parsed ((k, v) :: ms) r'.
Proof.
  intros H H'. rewrite parse_members_step. rewrite H.
  change (match parse_members f r with
          | Parsed ms r'' => Parsed ((k, v) :: ms) r''
          | Unexpected => Unexpected
          | Exhausted => Exhausted
          end = Parsed ((k, v) :: ms) r').
  by rewrite H'.
Qed.



(** ** The first character of a serialized value *)

Lemma stringify_head v :
  well_formed v →
  ∃ c s, JSON_stringify v = String c s ∧ is_ws c = false ∧
         c ≠ "]"%char ∧ c ≠ "}"%char.
Proof.
  destruct v as [|[]|n|neg i f e|s|l|o|b]; intros Hwf; try done;
    try (by eexists _, _; split; [reflexivity|]).
  destruct (number_to_string_head n) as (c & s & Hs & Hc).
  exists c, s. split; [exact Hs|].
  destruct Hc as [[d Hd]| ->]; [|done].
  destruct c as [[] [] [] [] [] [] [] []]; try discriminate Hd; done.
Qed.

Lemma parse_head v rest :
  well_formed v →
  skip_ws (JSON_stringify v +:+ rest) = JSON_stringify v +:+ rest ∧
  starts_with "]" (JSON_stringify v +:+ rest) = None ∧
  starts_with "}" (JSON_stringify v +:+ rest) = None.
Proof.
  intros Hwf. destruct (stringify_head v Hwf) as (c & s & -> & Hws & Hb & Hc).
  change (String c s +:+ rest) with (String c (s +:+ rest)).
  by rewrite skip_ws_head, !starts_with_other.
Qed.

(** ** Objects without a repeated name *)

Lemma obj_set_fresh k v (o : list (string * value)) :
  k ∉ o.*1 → obj_set k v o = o ++ [(k, v)].
Proof.
  induction o as [|[k' v'] o IH]; intros Hk; [done|].
  rewrite fmap_cons, not_elem_of_cons in Hk. destruct Hk as [Hne Hk].
  cbn [obj_set]. rewrite decide_False by done. by rewrite IH.
Qed.

Lemma obj_of_members_app (acc ms : list (string * value)) :
  NoDup (acc ++ ms).*1 →
  fold_left (λ o m, obj_set m.1 m.2 o) ms acc = acc ++ ms.
Proof.
  revert acc. induction ms as [|[k v] ms IH]; intros acc Hnd.
  - by rewrite app_nil_r.
  - cbn [fold_left fst snd]. rewrite obj_set_fresh.
    + rewrite IH; rewrite <- app_assoc; done.
    + rewrite fmap_app in Hnd. apply NoDup_app in Hnd as (_ & Hdis & _).
      intros Hin. apply (Hdis k Hin). rewrite fmap_cons. apply list_elem_of_here.
Qed.

Lemma obj_of_members_NoDup (ms : list (string * value)) :
  NoDup ms.*1 → obj_of_members ms = ms.
Proof. intros Hnd. unfold obj_of_members. by rewrite obj_of_members_app. Qed.

(** ** The bytes of a [Buffer] *)

Lemma parse_elements_bytes b f rest :
  b ≠ "" →
  (2 * String.length b ≤ f)%nat →
  parse_elements f (stringify_bytes b +:+ String "]" rest) =
    Parsed (map (λ c, VNum (byte_value c)) (list_ascii_of_string b)) rest.
Proof.
  revert f. induction b as [|c b IH]; intros f Hne Hf; [done|].
  cbn [String.length] in Hf.
  destruct f as [|[|f]]; [lia..|].
  destruct b as [|c' b].
  - apply parse_elements_last.
    change (stringify_bytes (String c "") +:+ String "]" rest)
      with ((number_to_string (byte_value c) +:+ "") +:+ String "]" rest).
    rewrite string_app_nil_r. by apply parse_value_number.
  - change (list_ascii_of_string (String c (String c' b)))
      with (c :: list_ascii_of_string (String c' b)).
    cbn [map].
    apply parse_elements_comma
      with (r := stringify_bytes (String c' b) +:+ String "]" rest).
    + change (stringify_bytes (String c (String c' b)) +:+ String "]" rest)
        with ((number_to_string (byte_value c) +:+ String "," (stringify_bytes (String c' b)))
              +:+ String "]" rest).
      rewrite string_app_assoc. by apply parse_value_number.
    + apply IH; [done|]. cbn [String.length] in *. lia.
Qed.


(** ** Elements and members *)

Lemma cost_pos v : (1 ≤ cost v)%nat.
Proof. destruct v; cbn [cost]; lia. Qed.

Lemma cost_VArr_cons x l : cost (VArr (x :: l)) = S (cost x + cost (VArr l)).
Proof. cbn [cost]. lia. Qed.

Lemma cost_VObj_cons p o : cost (VObj (p :: o)) = S (cost p.2 + cost (VObj o)).
Proof. cbn [cost]. lia. Qed.

Lemma well_formed_VArr_cons x l :
  well_formed (VArr (x :: l)) ↔ well_formed x ∧ well_formed (VArr l).
Proof. reflexivity. Qed.

Lemma well_formed_VObj_cons p o :
  well_formed (VObj (p :: o)) ↔
  (p.1 ∉ o.*1) ∧ well_formed p.2 ∧ well_formed (VObj o).
Proof.
  change (well_formed (VObj (p :: o)))
    with (NoDup (p :: o).*1 ∧ well_formed p.2 ∧
          (fix all (l : list (string * value)) : Prop :=
             match l with
             | [] => True
             | p :: l' => well_formed p.2 ∧ all l'
             end) o).
  change (well_formed (VObj o))
    with (NoDup o.*1 ∧
          (fix all (l : list (string * value)) : Prop :=
             match l with
             | [] => True
             | p :: l' => well_formed p.2 ∧ all l'
             end) o).
  rewrite fmap_cons, NoDup_cons. tauto.
Qed.

Lemma parse_elements_print l :
  Forall parses_back l →
  l ≠ [] →
  well_formed (VArr l) →
  ∀ f rest, (cost (VArr l) ≤ S f)%nat →
    parse_elements f (stringify_elems l +:+ String "]" rest) =
      Parsed (map jsonify l) rest.
Proof.
  induction 1 as [|x l Hx Hl IH]; intros Hne Hwf f rest Hf; [done|].
  apply well_formed_VArr_cons in Hwf as [Hwx Hwl].
  rewrite cost_VArr_cons in Hf.
  pose proof (cost_pos x). pose proof (cost_pos (VArr l)).
  destruct f as [|f]; [lia|].
  destruct l as [|y l].
  - apply parse_elements_last.
    change (stringify_elems [x] +:+ String "]" rest)
      with ((JSON_stringify x +:+ "") +:+ String "]" rest).
    rewrite string_app_nil_r. apply Hx; [done|lia|done].
  - cbn [map]. apply parse_elements_comma
      with (r := stringify_elems (y :: l) +:+ String "]" rest).
    + change (stringify_elems (x :: y :: l) +:+ String "]" rest)
        with ((JSON_stringify x +:+ String "," (stringify_elems (y :: l)))
              +:+ String "]" rest).
      rewrite string_app_assoc. apply Hx; [done|lia|done].
    + apply IH; [done|done|lia].
Qed.

Lemma parse_members_print o :
  Forall (λ p, parses_back p.2) o →
  o ≠ [] →
  well_formed (VObj o) →
  ∀ f rest, (cost (VObj o) ≤ S f)%nat →
    parse_members f (stringify_props o +:+ String "}" rest) =
      Parsed (map (λ p, (p.1, jsonify p.2)) o) rest.
Proof.
  induction 1 as [|[k x] o Hx Ho IH]; intros Hne Hwf f rest Hf; [done|].
  apply well_formed_VObj_cons in Hwf as (_ & Hwx & Hwo).
  rewrite cost_VObj_cons in Hf. cbn [fst snd] in *.
  pose proof (cost_pos x). pose proof (cost_pos (VObj o)).
  destruct f as [|f]; [lia|].
  destruct o as [|q o].
  - change (stringify_props [(k, x)] +:+ String "}" rest)
      with ((quote k +:+ String ":" (JSON_stringify x +:+ "")) +:+ String "}" rest).
    rewrite string_app_nil_r, string_app_assoc.
    change (String ":" (JSON_stringify x) +:+ String "}" rest)
      with (String ":" (JSON_stringify x +:+ String "}" rest)).
    apply parse_members_last. apply Hx; [done|lia|done].
  - change (stringify_props ((k, x) :: q :: o) +:+ String "}" rest)
      with ((quote k +:+ String ":" (JSON_stringify x +:+ String "," (stringify_props (q :: o))))
            +:+ String "}" rest).
    rewrite string_app_assoc.
    change (String ":" (JSON_stringify x +:+ String "," (stringify_props (q :: o)))
            +:+ String "}" rest)
      with (String ":" ((JSON_stringify x +:+ String "," (stringify_props (q :: o)))
                        +:+ String "}" rest)).
    rewrite string_app_assoc.
    change (String "," (stringify_props (q :: o)) +:+ String "}" rest)
      with (String "," (stringify_props (q :: o) +:+ String "}" rest)).
    cbn [map fst snd].
    apply parse_members_comma
      with (r := stringify_props (q :: o) +:+ String "}" rest).
    + apply Hx; [done|lia|done].
    + apply IH; [done|done|lia].
Qed.

Lemma jsonify_fst (o : list (string * value)) :
  (map (λ p, (p.1, jsonify p.2)) o).*1 = o.*1.
Proof. induction o as [|[k x] o IH]; [done|]. cbn. by rewrite IH. Qed.

Lemma stringify_Buffer_text b rest :
  JSON_stringify (VBuffer b) +:+ rest =
    String "{" (quote "type" +:+ String ":" (quote "Buffer" +:+ String ","
      (quote "data" +:+ String ":" (String "[" (stringify_bytes b +:+ String "]" (String "}" rest)))))).
Proof.
  change (JSON_stringify (VBuffer b) +:+ rest)
    with (String "{" ((quote "type" +:+ String ":" (quote "Buffer" +:+ String ","
            (quote "data" +:+ String ":" (String "[" (stringify_bytes b +:+ "]}"))))) +:+ rest)).
  f_equal. rewrite string_app_assoc. f_equal.
  change (String ":" (quote "Buffer" +:+ String ","
            (quote "data" +:+ String ":" (String "[" (stringify_bytes b +:+ "]}")))) +:+ rest)
    with (String ":" ((quote "Buffer" +:+ String ","
            (quote "data" +:+ String ":" (String "[" (stringify_bytes b +:+ "]}")))) +:+ rest)).
  f_equal. rewrite string_app_assoc. f_equal.
  change (String "," (quote "data" +:+ String ":" (String "[" (stringify_bytes b +:+ "]}"))) +:+ rest)
    with (String "," ((quote "data" +:+ String ":" (String "[" (stringify_bytes b +:+ "]}"))) +:+ rest)).
  f_equal. rewrite string_app_assoc. f_equal.
  change (String ":" (String "[" (stringify_bytes b +:+ "]}")) +:+ rest)
    with (String ":" (String "[" ((stringify_bytes b +:+ "]}") +:+ rest))).
  do 2 f_equal. by rewrite string_app_assoc.
Qed.

Lemma parse_value_Buffer b : parses_back (VBuffer b).
Proof.
  intros _ f rest Hf Hrest. cbn [cost] in Hf.
  destruct f as [|[|[|[|[|[|f]]]]]]; [lia..|].
  rewrite stringify_Buffer_text, parse_value_object.
  change (starts_with "}" (skip_ws (quote "type" +:+ ?x))) with (@None string).
  assert (parse_members (S (S (S (S (S f)))))
            (quote "type" +:+ String ":" (quote "Buffer" +:+ String ","
               (quote "data" +:+ String ":" (String "["
                  (stringify_bytes b +:+ String "]" (String "}" rest))))))
          = Parsed [("type", VStr "Buffer");
                    ("data", VArr (map (λ c, VNum (byte_value c)) (list_ascii_of_string b)))]
                   rest) as ->; [|reflexivity].
  eapply parse_members_comma; [apply parse_value_string|].
  apply parse_members_last. rewrite parse_value_array.
  destruct b as [|c b]; [reflexivity|].
  assert (starts_with "]" (skip_ws (stringify_bytes (String c b) +:+ String "]" (String "}" rest)))
          = None) as ->.
  { destruct (stringify_head (VNum (byte_value c)) I) as (d & s & Hd & Hws & Hb & _).
    change (JSON_stringify (VNum (byte_value c))) with (number_to_string (byte_value c)) in Hd.
    change (stringify_bytes (String c b))
      with (number_to_string (byte_value c) +:+ match b with
                                                 | "" => ""
                                                 | _ => "," +:+ stringify_bytes b
                                                 end).
    rewrite Hd.
    change ((String d s +:+ ?t) +:+ ?r) with (String d ((s +:+ t) +:+ r)).
    by rewrite skip_ws_head, starts_with_other. }
  rewrite parse_elements_bytes; [reflexivity|done|]. cbn [String.length] in *. lia.
Qed.


(** ** Every well-formed value is read back *)

Lemma stringify_VArr_text l rest :
  JSON_stringify (VArr l) +:+ rest = String "[" (stringify_elems l +:+ String "]" rest).
Proof.
  change (JSON_stringify (VArr l) +:+ rest)
    with (String "[" ((stringify_elems l +:+ "]") +:+ rest)).
  by rewrite string_app_assoc.
Qed.

Lemma stringify_VObj_text o rest :
  JSON_stringify (VObj o) +:+ rest = String "{" (stringify_props o +:+ String "}" rest).
Proof.
  change (JSON_stringify (VObj o) +:+ rest)
    with (String "{" ((stringify_props o +:+ "}") +:+ rest)).
  by rewrite string_app_assoc.
Qed.

Lemma parse_value_print v : parses_back v.
Proof.
  induction v as [|b|n|neg i fr e|s|l IH|o IH|b] using value_induction;
    intros Hwf f rest Hf Hrest;
    (destruct f as [|f];
       [match type of Hf with (cost ?v ≤ _)%nat => pose proof (cost_pos v) end; lia|]).
  - reflexivity.
  - apply parse_value_bool.
  - by apply parse_value_number.
  - done.
  - apply parse_value_string.
  - rewrite stringify_VArr_text, parse_value_array.
    destruct l as [|x l]; [reflexivity|].
    pose proof Hwf as Hwf'. apply well_formed_VArr_cons in Hwf' as [Hwx _].
    change (stringify_elems (x :: l))
      with (JSON_stringify x +:+ match l with [] => "" | _ => "," +:+ stringify_elems l end).
    rewrite string_app_assoc.
    destruct (parse_head x (match l with [] => "" | _ => "," +:+ stringify_elems l end
                            +:+ String "]" rest) Hwx) as (-> & -> & _).
    rewrite <- string_app_assoc.
    change (JSON_stringify x +:+ match l with [] => "" | _ => "," +:+ stringify_elems l end)
      with (stringify_elems (x :: l)).
    by rewrite (parse_elements_print (x :: l)).
  - rewrite stringify_VObj_text, parse_value_object.
    destruct o as [|[k x] o]; [reflexivity|].
    assert (starts_with "}" (skip_ws (stringify_props ((k, x) :: o) +:+ String "}" rest))
            = None) as -> by reflexivity.
    rewrite (parse_members_print ((k, x) :: o)) by done.
    rewrite obj_of_members_NoDup; [reflexivity|].
    rewrite jsonify_fst. apply Hwf.
  - by apply parse_value_Buffer.
Qed.


(** ** The fuel of [JSON_parse_text] suffices for a serialized value *)

Lemma string_length_app (a b : string) :
  String.length (a +:+ b) = (String.length a + String.length b)%nat.
Proof.
  induction a as [|x a IH]; [done|].
  change (S (String.length (a +:+ b)) = S (String.length a + String.length b)).
  by rewrite IH.
Qed.

Lemma stringify_bytes_length b :
  (2 * String.length b ≤ String.length (stringify_bytes b) + 1)%nat.
Proof.
  induction b as [|c b IH]; [cbn; lia|].
  change (stringify_bytes (String c b))
    with (number_to_string (byte_value c) +:+
          match b with "" => "" | _ => "," +:+ stringify_bytes b end).
  rewrite string_length_app.
  destruct (number_to_string_head (byte_value c)) as (d & s & -> & _).
  destruct b as [|c' b]; [cbn; lia|].
  rewrite string_length_app. cbn [String.length] in *. lia.
Qed.

Lemma stringify_elems_cost l :
  Forall (λ x, well_formed x → (cost x ≤ String.length (JSON_stringify x))%nat) l →
  well_formed (VArr l) →
  (cost (VArr l) ≤ String.length (stringify_elems l) + 2)%nat.
Proof.
  induction 1 as [|x l Hx Hl IH]; intros Hwf; [cbn; lia|].
  apply well_formed_VArr_cons in Hwf as [Hwx Hwl].
  rewrite cost_VArr_cons.
  change (stringify_elems (x :: l))
    with (JSON_stringify x +:+ match l with [] => "" | _ => "," +:+ stringify_elems l end).
  rewrite string_length_app. specialize (Hx Hwx). specialize (IH Hwl).
  destruct l as [|y l]; [cbn in *; lia|].
  rewrite string_length_app. cbn [String.length]. lia.
Qed.

Lemma stringify_props_cost o :
  Forall (λ p, well_formed p.2 → (cost p.2 ≤ String.length (JSON_stringify p.2))%nat) o →
  well_formed (VObj o) →
  (cost (VObj o) ≤ String.length (stringify_props o) + 2)%nat.
Proof.
  induction 1 as [|[k x] o Hx Ho IH]; intros Hwf; [cbn; lia|].
  apply well_formed_VObj_cons in Hwf as (_ & Hwx & Hwo).
  rewrite cost_VObj_cons. cbn [fst snd] in *.
  change (stringify_props ((k, x) :: o))
    with (quote k +:+ ":" +:+ JSON_stringify x +:+
          match o with [] => "" | _ => "," +:+ stringify_props o end).
  rewrite !string_length_app. specialize (Hx Hwx). specialize (IH Hwo).
  destruct o as [|q o]; [cbn in *; lia|].
  rewrite string_length_app. cbn [String.length]. lia.
Qed.

Lemma cost_le_length v :
  well_formed v → (cost v ≤ String.length (JSON_stringify v))%nat.
Proof.
  induction v as [|b|n|neg i fr e|s|l IH|o IH|b] using value_induction; intros Hwf.
  - cbn; lia.
  - destruct b; cbn; lia.
  - change (JSON_stringify (VNum n)) with (number_to_string n).
    destruct (number_to_string_head n) as (d & s & -> & _). cbn; lia.
  - done.
  - cbn [cost JSON_stringify]. unfold quote. cbn [String.length]. lia.
  - pose proof (stringify_elems_cost l IH Hwf).
    rewrite stringify_VArr, !string_length_app. cbn [String.length]. lia.
  - pose proof (stringify_props_cost o IH Hwf).
    rewrite stringify_VObj, !string_length_app. cbn [String.length]. lia.
  - pose proof (stringify_bytes_length b).
    rewrite <- (string_app_nil_r (JSON_stringify (VBuffer b))), stringify_Buffer_text.
    cbn [cost String.length].
    repeat (rewrite string_length_app; cbn [String.length]).
    change (String.length (quote "type")) with 6%nat.
    change (String.length (quote "Buffer")) with 8%nat.
    change (String.length (quote "data")) with 6%nat.
    cbn [String.length]. lia.
Qed.

Lemma JSON_parse_text_stringify v :
  well_formed v → JSON_parse_text (JSON_stringify v) = Ok (jsonify v).
Proof.
  intros Hwf. unfold JSON_parse_text.
  pose proof (parse_value_print v Hwf (2 * String.length (JSON_stringify v) + 2)%nat "") as H.
  rewrite string_app_nil_r in H. rewrite H; [done| |done].
  pose proof (cost_le_length v Hwf). lia.
Qed.

Lemma stringify_elems_bytes b :
  stringify_elems (map (λ c, VNum (byte_value c)) (list_ascii_of_string b)) = stringify_bytes b.
Proof.
  induction b as [|c b IH]; [done|].
  change (list_ascii_of_string (String c b)) with (c :: list_ascii_of_string b).
  cbn [map stringify_elems stringify_bytes]. destruct b as [|c' b]; [done|].
  rewrite <- IH. reflexivity.
Qed.

(** A [Buffer] is serialized as the object its [toJSON] returns. *)
Lemma stringify_Buffer b :
  JSON_stringify (VBuffer b) = JSON_stringify (Buffer_toJSON b).
Proof.
  unfold Buffer_toJSON. rewrite stringify_VObj.
  cbn [stringify_props]. rewrite stringify_VArr, stringify_elems_bytes.
  change (JSON_stringify (VStr "Buffer")) with (quote "Buffer").
  change (JSON_stringify (VBuffer b))
    with ("{" +:+ quote "type" +:+ ":" +:+ quote "Buffer" +:+ ","
          +:+ quote "data" +:+ ":" +:+ "[" +:+ stringify_bytes b +:+ "]" +:+ "}").
  rewrite !string_app_assoc. reflexivity.
Qed.

End JSONText.

(* ===================================================================== *)
(** * The parser always has fuel left *)
(* ===================================================================== *)

Section Totality.

Implicit Types (s r : string).

Lemma skip_ws_length s : (String.length (skip_ws s) ≤ String.length s)%nat.
Proof.
  induction s as [|c s IH]; [done|].
  change (skip_ws (String c s)) with (if is_ws c then skip_ws s else String c s).
  destruct (is_ws c); cbn [String.length]; lia.
Qed.

Lemma starts_with_length c s r :
  starts_with c s = Some r → String.length s = S (String.length r).
Proof.
  destruct s as [|c' s]; [done|]. unfold starts_with.
  case_decide; [|done]. by intros [= ->].
Qed.

Lemma strip_prefix_length p s r :
  strip_prefix p s = Some r →
  String.length s = (String.length p + String.length r)%nat.
Proof.
  revert s. induction p as [|a p IH]; intros s.
  - by intros [= ->].
  - destruct s as [|b s]; [done|]. cbn [strip_prefix].
    case_decide; [|done]. intros Hp%IH. cbn [String.length]. lia.
Qed.

Lemma scan_digits_length s :
  String.length s
  = (nb_digits (scan_digits s).1 + String.length (scan_digits s).2)%nat.
Proof.
  induction s as [|c s IH]; [done|].
  change (scan_digits (String c s))
    with (match digit_of c with
          | Some d => let '(u, r) := scan_digits s in (d u, r)
          | None => (Nil, String c s)
          end).
  destruct (scan_digits s) as [u r]. cbn [fst snd] in IH.
  each_char c; simpl; lia.
Qed.

Lemma scan_frac_length s f r :
  scan_frac s = Some (f, r) → (String.length r ≤ String.length s)%nat.
Proof.
  unfold scan_frac. destruct (starts_with "." s) as [s'|] eqn:Hs.
  - apply starts_with_length in Hs. pose proof (scan_digits_length s') as Hd.
    destruct (scan_digits s') as [u r']. cbn [fst snd] in Hd.
    destruct u; intros [= <- <-]; lia.
  - intros [= <- <-]. lia.
Qed.

Lemma scan_exp_length s e r :
  scan_exp s = Some (e, r) → (String.length r ≤ String.length s)%nat.
Proof.
  destruct s as [|c s']; [by intros [= <- <-]|]. unfold scan_exp.
  destruct (_ || _); [|by intros [= <- <-]].
  assert (∃ sign s'', (match starts_with "+" s' with
                       | Some t => (Pos, t)
                       | None => match starts_with "-" s' with
                                 | Some t => (Neg, t)
                                 | None => (Pos, s')
                                 end
                       end) = (sign, s'') ∧
                      (String.length s'' ≤ String.length s')%nat) as (sign & s'' & -> & Hs'').
  { destruct (starts_with "+" s') as [t|] eqn:Hp.
    - apply starts_with_length in Hp. eexists _, _. split; [done|lia].
    - destruct (starts_with "-" s') as [t|] eqn:Hm.
      + apply starts_with_length in Hm. eexists _, _. split; [done|lia].
      + eexists _, _. split; [done|lia]. }
  pose proof (scan_digits_length s'') as Hd.
  destruct (scan_digits s'') as [u r']. cbn [fst snd String.length] in *.
  destruct u; intros [= <- <-]; lia.
Qed.

Lemma number_tail_length neg i s v r :
  number_tail neg i s = Some (v, r) → (String.length r ≤ String.length s)%nat.
Proof.
  unfold number_tail.
  destruct (scan_frac s) as [[f s3]|] eqn:Hf; [|done]. apply scan_frac_length in Hf.
  destruct (scan_exp s3) as [[e s4]|] eqn:He; [|done]. apply scan_exp_length in He.
  destruct f, e; intros [= <- <-]; lia.
Qed.

Lemma parse_number_length s v r :
  parse_number s = Some (v, r) → (String.length r < String.length s)%nat.
Proof.
  unfold parse_number, scan_sign.
  assert (∃ neg s1, (match starts_with "-" s with
                     | Some s' => (true, s')
                     | None => (false, s)
                     end) = (neg, s1) ∧ (String.length s1 ≤ String.length s)%nat)
    as (neg & s1 & -> & Hs1).
  { destruct (starts_with "-" s) as [t|] eqn:Hm.
    - apply starts_with_length in Hm. eexists _, _. split; [done|lia].
    - eexists _, _. split; [done|lia]. }
  pose proof (scan_digits_length s1) as Hd.
  destruct (scan_digits s1) as [i s2]. cbn [fst snd] in Hd.
  destruct (int_digits_ok i) eqn:Hi; [|done].
  intros Ht%number_tail_length.
  destruct i; try discriminate Hi; cbn [nb_digits] in Hd; lia.
Qed.

Lemma parse_literal_length s v r :
  parse_literal s = Parsed v r → (String.length r < String.length s)%nat.
Proof.
  unfold parse_literal.
  destruct (strip_prefix "true" s) as [t|] eqn:H1.
  { apply strip_prefix_length in H1. intros [= <- <-]. cbn [String.length] in H1. lia. }
  destruct (strip_prefix "false" s) as [t|] eqn:H2.
  { apply strip_prefix_length in H2. intros [= <- <-]. cbn [String.length] in H2. lia. }
  destruct (strip_prefix "null" s) as [t|] eqn:H3.
  { apply strip_prefix_length in H3. intros [= <- <-]. cbn [String.length] in H3. lia. }
  destruct (parse_number s) as [[v' r']|] eqn:H4; [|done].
  apply parse_number_length in H4. by intros [= <- <-].
Qed.

Lemma parse_literal_fuel s : parse_literal s ≠ Exhausted.
Proof.
  unfold parse_literal.
  destruct (strip_prefix "true" s); [done|].
  destruct (strip_prefix "false" s); [done|].
  destruct (strip_prefix "null" s); [done|].
  by destruct (parse_number s) as [[? ?]|].
Qed.

Ltac scan_cases H IH :=
  repeat match type of H with
    | match scan_string ?x with _ => _ end = Some _ =>
        let E := fresh "E" in
        destruct (scan_string x) as [[? ?]|] eqn:E; [|discriminate H];
        apply IH in E; [|cbn [String.length] in *; lia]
    | match hex_value ?h with _ => _ end = Some _ =>
        destruct (hex_value h); [|discriminate H]
    end;
  try discriminate H;
  try (injection H as <- <-; cbn [String.length] in *; lia).

Lemma scan_string_length n s ts r :
  (String.length s ≤ n)%nat →
  scan_string s = Some (ts, r) → (String.length r < String.length s)%nat.
Proof.
  revert s ts r. induction n as [|n IH]; intros s ts r Hn H.
  { destruct s; [discriminate H|cbn [String.length] in Hn; lia]. }
  destruct s as [|c s']; [discriminate H|]. cbn [String.length] in Hn.
  each_char c; simpl in H; scan_cases H IH.
  destruct s' as [|e s'']; [discriminate H|].
  each_char e; simpl in H; scan_cases H IH.
  destruct s'' as [|h1 [|h2 [|h3 [|h4 r0]]]]; try discriminate H.
  scan_cases H IH.
Qed.

Lemma parse_string_length s str r :
  parse_string s = Some (str, r) → (String.length r < String.length s)%nat.
Proof.
  unfold parse_string. destruct (scan_string s) as [[ts r']|] eqn:E; [|done].
  intros [= _ <-]. by eapply scan_string_length.
Qed.

(** The three parsers with the tests on characters written as
    decisions. *)
Lemma parse_value_cases f s :
  parse_value (S f) s =
    match skip_ws s with
    | EmptyString => Unexpected
    | String c s' =>
        if decide (c = "{"%char) then
          match starts_with "}" (skip_ws s') with
          | Some r => Parsed (VObj []) r
          | None =>
              match parse_members f s' with
              | Parsed ms r => Parsed (VObj (obj_of_members ms)) r
              | Unexpected => Unexpected
              | Exhausted => Exhausted
              end
          end
        else if decide (c = "["%char) then
          match starts_with "]" (skip_ws s') with
          | Some r => Parsed (VArr []) r
          | None =>
              match parse_elements f s' with
              | Parsed vs r => Parsed (VArr vs) r
              | Unexpected => Unexpected
              | Exhausted => Exhausted
              end
          end
        else if decide (c = DQUOTE) then
          match parse_string s' with
          | Some (str, r) => Parsed (VStr str) r
          | None => Unexpected
          end
        else parse_literal (String c s')
    end.
Proof.
  transitivity
    (match skip_ws s with
     | EmptyString => Unexpected
     | String c s' =>
         match N_of_ascii c with
         | 123%N =>
             match starts_with "}" (skip_ws s') with
             | Some r => Parsed (VObj []) r
             | None =>
                 match parse_members f s' with
                 | Parsed ms r => Parsed (VObj (obj_of_members ms)) r
                 | Unexpected => Unexpected
                 | Exhausted => Exhausted
                 end
             end
         | 91%N =>
             match starts_with "]" (skip_ws s') with
             | Some r => Parsed (VArr []) r
             | None =>
                 match parse_elements f s' with
                 | Parsed vs r => Parsed (VArr vs) r
                 | Unexpected => Unexpected
                 | Exhausted => Exhausted
                 end
             end
         | 34%N =>
             match parse_string s' with
             | Some (str, r) => Parsed (VStr str) r
             | None => Unexpected
             end
         | _ => parse_literal (String c s')
         end
     end); [reflexivity|].
  destruct (skip_ws s) as [|c s']; [reflexivity|]. each_char c; reflexivity.
Qed.

Lemma starts_with_same c s : starts_with c (String c s) = Some s.
Proof. unfold starts_with. by rewrite decide_True. Qed.

Lemma after_value_cases {A : Type} (r : string) (X : string → A) (Y : string → A) (Z : A) :
  match skip_ws r with
  | String "," r' => X r'
  | String "]" r' => Y r'
  | _ => Z
  end =
  match starts_with "," (skip_ws r) with
  | Some r' => X r'
  | None =>
      match starts_with "]" (skip_ws r) with
      | Some r' => Y r'
      | None => Z
      end
  end.
Proof. destruct (skip_ws r) as [|c r']; [reflexivity|]. each_char c; reflexivity. Qed.

Lemma after_member_cases {A : Type} (r : string) (X : string → A) (Y : string → A) (Z : A) :
  match skip_ws r with
  | String "," r' => X r'
  | String "}" r' => Y r'
  | _ => Z
  end =
  match starts_with "," (skip_ws r) with
  | Some r' => X r'
  | None =>
      match starts_with "}" (skip_ws r) with
      | Some r' => Y r'
      | None => Z
      end
  end.
Proof. destruct (skip_ws r) as [|c r']; [reflexivity|]. each_char c; reflexivity. Qed.

Lemma parse_elements_cases f s :
  parse_elements (S f) s =
    match parse_value f s with
    | Parsed v r =>
        match starts_with "," (skip_ws r) with
        | Some r' =>
            match parse_elements f r' with
            | Parsed vs r'' => Parsed (v :: vs) r''
            | Unexpected => Unexpected
            | Exhausted => Exhausted
            end
        | None =>
            match starts_with "]" (skip_ws r) with
            | Some r' => Parsed [v] r'
            | None => Unexpected
            end
        end
    | Unexpected => Unexpected
    | Exhausted => Exhausted
    end.
Proof.
  transitivity
    (match parse_value f s with
     | Parsed v r =>
         match skip_ws r with
         | String "," r' =>
             match parse_elements f r' with
             | Parsed vs r'' => Parsed (v :: vs) r''
             | Unexpected => Unexpected
             | Exhausted => Exhausted
             end
         | String "]" r' => Parsed [v] r'
         | _ => Unexpected
         end
     | Unexpected => Unexpected
     | Exhausted => Exhausted
     end); [reflexivity|].
  destruct (parse_value f s) as [v r| |]; [|reflexivity..].
  apply (after_value_cases r
           (λ r', match parse_elements f r' with
                  | Parsed vs r'' => Parsed (v :: vs) r''
                  | Unexpected => Unexpected
                  | Exhausted => Exhausted
                  end)
           (λ r', Parsed [v] r') Unexpected).
Qed.

Lemma parse_members_cases f s :
  parse_members (S f) s =
    match starts_with DQUOTE (skip_ws s) with
    | Some s1 =>
        match parse_string s1 with
        | Some (k, s2) =>
            match starts_with ":" (skip_ws s2) with
            | Some s3 =>
                match parse_value f s3 with
                | Parsed v r =>
                    match starts_with "," (skip_ws r) with
                    | Some r' =>
                        match parse_members f r' with
                        | Parsed ms r'' => Parsed ((k, v) :: ms) r''
                        | Unexpected => Unexpected
                        | Exhausted => Exhausted
                        end
                    | None =>
                        match starts_with "}" (skip_ws r) with
                        | Some r' => Parsed [(k, v)] r'
                        | None => Unexpected
                        end
                    end
                | Unexpected => Unexpected
                | Exhausted => Exhausted
                end
            | None => Unexpected
            end
        | None => Unexpected
        end
    | None => Unexpected
    end.
Proof.
  transitivity
    (match skip_ws s with
     | String "034" s1 =>
         match parse_string s1 with
         | Some (k, s2) =>
             match skip_ws s2 with
             | String ":" s3 =>
                 match parse_value f s3 with
                 | Parsed v r =>
                     match skip_ws r with
                     | String "," r' =>
                         match parse_members f r' with
                         | Parsed ms r'' => Parsed ((k, v) :: ms) r''
                         | Unexpected => Unexpected
                         | Exhausted => Exhausted
                         end
                     | String "}" r' => Parsed [(k, v)] r'
                     | _ => Unexpected
                     end
                 | Unexpected => Unexpected
                 | Exhausted => Exhausted
                 end
             | _ => Unexpected
             end
         | None => Unexpected
         end
     | _ => Unexpected
     end); [reflexivity|].
  destruct (skip_ws s) as [|c s1]; [reflexivity|].
  each_char c; try reflexivity.
  unfold DQUOTE. rewrite starts_with_same.
  destruct (parse_string s1) as [[k s2]|]; [|reflexivity].
  destruct (skip_ws s2) as [|c s3]; [reflexivity|].
  each_char c; try reflexivity.
  rewrite starts_with_same.
  destruct (parse_value f s3) as [v r| |]; [|reflexivity..].
  apply (after_member_cases r
           (λ r', match parse_members f r' with
                  | Parsed ms r'' => Parsed ((k, v) :: ms) r''
                  | Unexpected => Unexpected
                  | Exhausted => Exhausted
                  end)
           (λ r', Parsed [(k, v)] r') Unexpected).
Qed.

Ltac lengths :=
  repeat match goal with
    | H : starts_with _ _ = Some _ |- _ => apply starts_with_length in H
    | H : parse_string _ = Some _ |- _ => apply parse_string_length in H
    | H : parse_literal _ = Parsed _ _ |- _ => apply parse_literal_length in H
    | H : skip_ws ?s = _ |- _ =>
        let L := fresh "L" in
        pose proof (skip_ws_length s) as L; rewrite H in L; clear H
    | |- context [skip_ws ?s] =>
        lazymatch goal with
        | _ : (String.length (skip_ws s) ≤ _)%nat |- _ => fail
        | _ => pose proof (skip_ws_length s)
        end
    | H : context [skip_ws ?s] |- _ =>
        lazymatch goal with
        | _ : (String.length (skip_ws s) ≤ _)%nat |- _ => fail
        | _ => pose proof (skip_ws_length s)
        end
    end;
  cbn [String.length] in *.

Lemma parse_progress f :
  (∀ s v r, parse_value f s = Parsed v r → (String.length r < String.length s)%nat) ∧
  (∀ s vs r, parse_elements f s = Parsed vs r → (String.length r < String.length s)%nat) ∧
  (∀ s ms r, parse_members f s = Parsed ms r → (String.length r < String.length s)%nat).
Proof.
  induction f as [|f (IHv & IHe & IHm)]; [by split_and!|].
  split_and!.
  - intros s v r. rewrite parse_value_cases.
    destruct (skip_ws s) as [|c s'] eqn:Hs; [done|].
    repeat case_decide.
    + destruct (starts_with "}" (skip_ws s')) as [t|] eqn:Ht.
      { intros [= _ <-]. lengths. lia. }
      destruct (parse_members f s') as [ms t| |] eqn:Hm; [|done..].
      apply IHm in Hm. intros [= _ <-]. lengths. lia.
    + destruct (starts_with "]" (skip_ws s')) as [t|] eqn:Ht.
      { intros [= _ <-]. lengths. lia. }
      destruct (parse_elements f s') as [vs t| |] eqn:He; [|done..].
      apply IHe in He. intros [= _ <-]. lengths. lia.
    + destruct (parse_string s') as [[str t]|] eqn:Hp; [|done].
      intros [= _ <-]. lengths. lia.
    + intros Hl. lengths. lia.
  - intros s vs r. rewrite parse_elements_cases.
    destruct (parse_value f s) as [v t| |] eqn:Hv; [|done..]. apply IHv in Hv.
    destruct (starts_with "," (skip_ws t)) as [t'|] eqn:Hc.
    { destruct (parse_elements f t') as [vs' t''| |] eqn:He; [|done..].
      apply IHe in He. intros [= _ <-]. lengths. lia. }
    destruct (starts_with "]" (skip_ws t)) as [t'|] eqn:Hb; [|done].
    intros [= _ <-]. lengths. lia.
  - intros s ms r. rewrite parse_members_cases.
    destruct (starts_with DQUOTE (skip_ws s)) as [s1|] eqn:H1; [|done].
    destruct (parse_string s1) as [[k s2]|] eqn:H2; [|done].
    destruct (starts_with ":" (skip_ws s2)) as [s3|] eqn:H3; [|done].
    destruct (parse_value f s3) as [v t| |] eqn:Hv; [|done..]. apply IHv in Hv.
    destruct (starts_with "," (skip_ws t)) as [t'|] eqn:Hc.
    { destruct (parse_members f t') as [ms' t''| |] eqn:Hm; [|done..].
      apply IHm in Hm. intros [= _ <-]. lengths. lia. }
    destruct (starts_with "}" (skip_ws t)) as [t'|] eqn:Hb; [|done].
    intros [= _ <-]. lengths. lia.
Qed.

Lemma parse_fuel f :
  (∀ s, (2 * String.length s + 1 ≤ f)%nat → parse_value f s ≠ Exhausted) ∧
  (∀ s, (2 * String.length s + 2 ≤ f)%nat → parse_elements f s ≠ Exhausted) ∧
  (∀ s, (2 * String.length s + 2 ≤ f)%nat → parse_members f s ≠ Exhausted).
Proof.
  induction f as [|f (IHv & IHe & IHm)]; [split_and!; intros; lia|].
  destruct (parse_progress f) as (Pv & Pe & Pm).
  split_and!.
  - intros s Hf. rewrite parse_value_cases.
    destruct (skip_ws s) as [|c s'] eqn:Hs; [done|].
    repeat case_decide.
    + destruct (starts_with "}" (skip_ws s')) as [t|] eqn:Ht; [done|].
      destruct (parse_members f s') eqn:Hm; try done.
      exfalso. apply (IHm s'); [|done]. lengths. lia.
    + destruct (starts_with "]" (skip_ws s')) as [t|] eqn:Ht; [done|].
      destruct (parse_elements f s') eqn:He; try done.
      exfalso. apply (IHe s'); [|done]. lengths. lia.
    + by destruct (parse_string s') as [[str t]|].
    + apply parse_literal_fuel.
  - intros s Hf. rewrite parse_elements_cases.
    destruct (parse_value f s) as [v t| |] eqn:Hv;
      [|done|exfalso; apply (IHv s); [lia|done]].
    apply Pv in Hv.
    destruct (starts_with "," (skip_ws t)) as [t'|] eqn:Hc.
    { destruct (parse_elements f t') eqn:He; try done.
      exfalso. apply (IHe t'); [|done]. lengths. lia. }
    by destruct (starts_with "]" (skip_ws t)).
  - intros s Hf. rewrite parse_members_cases.
    destruct (starts_with DQUOTE (skip_ws s)) as [s1|] eqn:H1; [|done].
    destruct (parse_string s1) as [[k s2]|] eqn:H2; [|done].
    destruct (starts_with ":" (skip_ws s2)) as [s3|] eqn:H3; [|done].
    destruct (parse_value f s3) as [v t| |] eqn:Hv;
      [|done|exfalso; apply (IHv s3); [lengths; lia|done]].
    apply Pv in Hv.
    destruct (starts_with "," (skip_ws t)) as [t'|] eqn:Hc.
    { destruct (parse_members f t') eqn:Hm; try done.
      exfalso. apply (IHm t'); [|done]. lengths. lia. }
    by destruct (starts_with "}" (skip_ws t)).
Qed.

(** The fuel given by [JSON_parse_text] is never used up: its outcome is
    a value or a syntax error. *)
Theorem JSON_parse_text_total s :
  (∃ v, JSON_parse_text s = Ok v) ∨
  JSON_parse_text s = Throw (SyntaxError "Unexpected token in JSON").
Proof.
  unfold JSON_parse_text.
  destruct (parse_fuel (2 * String.length s + 2)) as (Hv & _ & _).
  specialize (Hv s ltac:(lia)).
  destruct (parse_value _ s) as [v r| |]; [|by right|done].
  destruct (skip_ws r); eauto.
Qed.

End Totality.

(* ===================================================================== *)
(** * The reviver restores what [toJSON] flattened *)
(* ===================================================================== *)

Section Reviving.

Variable Buffer_from_other : value → result value.

Lemma internalize_elems_fix rev l i :
  (fix go (i : Z) (l : list value) : result (list value) :=
     match l with
     | [] => Ok []
     | x :: l' =>
         match internalize rev (number_to_string i) x with
         | Ok x' =>
             match go (i + 1) l' with
             | Ok l'' => Ok (x' :: l'')
             | Throw e => Throw e
             end
         | Throw e => Throw e
         end
     end) i l = internalize_elems rev i l.
Proof.
  revert i. induction l as [|x l IH]; intros i; [reflexivity|].
  cbn [internalize_elems]. rewrite <- IH. reflexivity.
Qed.

Lemma internalize_props_fix rev l :
  (fix go (l : list (string * value)) : result (list (string * value)) :=
     match l with
     | [] => Ok []
     | (k, x) :: l' =>
         match internalize rev k x with
         | Ok x' =>
             match go l' with
             | Ok l'' => Ok ((k, x') :: l'')
             | Throw e => Throw e
             end
         | Throw e => Throw e
         end
     end) l = internalize_props rev l.
Proof.
  induction l as [|[k x] l IH]; [reflexivity|].
  cbn [internalize_props]. rewrite <- IH. reflexivity.
Qed.

Lemma internalize_VArr rev key l :
  internalize rev key (VArr l) =
    match internalize_elems rev 0 l with
    | Ok l' => rev key (VArr l')
    | Throw e => Throw e
    end.
Proof. rewrite <- internalize_elems_fix. reflexivity. Qed.

Lemma internalize_VObj rev key o :
  internalize rev key (VObj o) =
    match internalize_props rev o with
    | Ok o' => rev key (VObj o')
    | Throw e => Throw e
    end.
Proof. rewrite <- internalize_props_fix. reflexivity. Qed.

Lemma reviver_other key v :
  match v with
  | VObj _ => get v "type" ≠ Some (VStr "Buffer")
  | _ => True
  end →
  reviver Buffer_from_other key v = Ok v.
Proof.
  intros Hv. unfold reviver. destruct (truthy v); [|done].
  destruct v; try done.
  destruct (get _ _) as [[]|]; try done.
  case_decide; [by subst|done].
Qed.

Lemma untagged_VArr_cons x l :
  untagged (VArr (x :: l)) ↔ untagged x ∧ untagged (VArr l).
Proof. reflexivity. Qed.

Lemma untagged_VObj_props p o :
  untagged (VObj (p :: o)) → untagged p.2 ∧
    (fix all (l : list (string * value)) : Prop :=
       match l with
       | [] => True
       | p :: l' => untagged p.2 ∧ all l'
       end) o.
Proof. by intros [_ H]. Qed.

Lemma internalize_elems_jsonify l :
  Forall (revives Buffer_from_other) l → untagged (VArr l) →
  ∀ i, internalize_elems (reviver Buffer_from_other) i (map jsonify l) = Ok l.
Proof.
  induction 1 as [|x l Hx Hl IH]; intros Hu i; [done|].
  apply untagged_VArr_cons in Hu as [Hux Hul].
  cbn [map internalize_elems]. rewrite Hx by done. by rewrite IH.
Qed.

Lemma internalize_props_jsonify o :
  Forall (λ p, revives Buffer_from_other p.2) o →
  (fix all (l : list (string * value)) : Prop :=
     match l with
     | [] => True
     | p :: l' => untagged p.2 ∧ all l'
     end) o →
  internalize_props (reviver Buffer_from_other) (map (λ p, (p.1, jsonify p.2)) o) = Ok o.
Proof.
  induction 1 as [|[k x] o Hx Ho IH]; intros Hu; [done|].
  destruct Hu as [Hux Huo].
  cbn [map internalize_props fst snd] in *. rewrite Hx by done. by rewrite IH.
Qed.

Lemma bytes_of_integers_bytes b :
  bytes_of_integers (map (λ c, VNum (byte_value c)) (list_ascii_of_string b)) = Some b.
Proof.
  induction b as [|c b IH]; [done|].
  change (list_ascii_of_string (String c b)) with (c :: list_ascii_of_string b).
  cbn [map bytes_of_integers]. rewrite IH.
  destruct c as [[] [] [] [] [] [] [] []]; reflexivity.
Qed.

Lemma internalize_elems_bytes b i :
  internalize_elems (reviver Buffer_from_other) i
    (map (λ c, VNum (byte_value c)) (list_ascii_of_string b))
  = Ok (map (λ c, VNum (byte_value c)) (list_ascii_of_string b)).
Proof.
  revert i. induction b as [|c b IH]; intros i; [done|].
  change (list_ascii_of_string (String c b)) with (c :: list_ascii_of_string b).
  cbn [map internalize_elems].
  change (internalize (reviver Buffer_from_other) (number_to_string i) (VNum (byte_value c)))
    with (reviver Buffer_from_other (number_to_string i) (VNum (byte_value c))).
  rewrite reviver_other by done. by rewrite IH.
Qed.

Lemma internalize_jsonify v : revives Buffer_from_other v.
Proof.
  induction v as [|b|n|neg i fr e|s|l IH|o IH|b] using value_induction; intros Hu key.
  - by apply reviver_other.
  - by apply reviver_other.
  - by apply reviver_other.
  - by apply reviver_other.
  - by apply reviver_other.
  - cbn [jsonify]. rewrite internalize_VArr, internalize_elems_jsonify by done.
    by apply reviver_other.
  - cbn [jsonify]. rewrite internalize_VObj, internalize_props_jsonify.
    + apply reviver_other, Hu.
    + done.
    + destruct o as [|p o]; [done|]. by apply untagged_VObj_props in Hu as [? ?].
  - cbn [jsonify]. unfold Buffer_toJSON. rewrite internalize_VObj.
    cbn [internalize_props].
    change (internalize (reviver Buffer_from_other) "type" (VStr "Buffer"))
      with (@Ok value (VStr "Buffer")).
    rewrite internalize_VArr, internalize_elems_bytes.
    rewrite reviver_other by done.
    unfold reviver. cbn [truthy get List.find fst snd bool_decide decide_rel fmap option_fmap option_map].
    change (new_Buffer Buffer_from_other
              (Some (VArr (map (λ c, VNum (byte_value c)) (list_ascii_of_string b))))
            = Ok (VBuffer b)).
    unfold new_Buffer. by rewrite bytes_of_integers_bytes.
Qed.

Lemma JSON_parse_stringify v :
  well_formed v → untagged v →
  JSON_parse (JSON_stringify v) (reviver Buffer_from_other) = Ok v.
Proof.
  intros Hwf Hu. unfold JSON_parse. rewrite JSON_parse_text_stringify by done.
  by apply internalize_jsonify.
Qed.

End Reviving.

(* ===================================================================== *)
(** * The coordinator, branch by branch *)
(* ===================================================================== *)

Section CoordinatorFacts.

Variable Buffer_from_other : value → result value.
Variable origin : options → result incoming.

Implicit Types (req : request) (body id : string) (w : world).

Ltac run_steps :=
  cbv beta iota zeta delta
    [makeAPIRequest mbind M_bind mret M_ret db_get db_put makeRequest
     try_catch lift throw emit put];
  cbn [store trace].

(** The run of the coordinator written out: the world after each step and
    the outcome of each branch. *)
Lemma makeAPIRequest_run req body id w :
  makeAPIRequest Buffer_from_other origin req body id w =
    let w1 := emit (DbGet "lock") w in
    if decide (store w !! "lock" = Some "true") then (Throw (Error "unavailable"), w1)
    else
      let w2 := emit (DbGet id) w1 in
      match interpret (store w !! id) with
      | PENDING => (Throw (Error "unavailable"), w2)
      | BLOCKED => (Throw (Error "gone"), w2)
      | READY data =>
          match JSON_parse data (reviver Buffer_from_other) with
          | Ok v => (Ok v, w2)
          | Throw _ => (Throw (Error "gone"), w2)
          end
      | ABSENT =>
          let w4 := emit (Fetch (fetch_options req body)) (put id "__REQUEST__" w2) in
          match origin (fetch_options req body) with
          | Ok rr => (Ok (cacheObj rr), put id (JSON_stringify (cacheObj rr)) w4)
          | Throw _ => (Throw (Error "gone"), put id "__BLOCK__" w4)
          end
      end.
Proof.
  unfold interpret.
  run_steps.
  destruct (decide (store w !! "lock" = Some "true")) as [Hl|Hl]; [done|].
  run_steps.
  destruct (store w !! id) as [data|] eqn:Hd.
  - destruct (decide (Some data = Some "__REQUEST__")) as [[= ->]|Hr].
    { by rewrite decide_True. }
    rewrite (decide_False (P := data = "__REQUEST__")) by congruence.
    destruct (decide (Some data = Some "__BLOCK__")) as [[= ->]|Hb].
    { by rewrite decide_True. }
    rewrite (decide_False (P := data = "__BLOCK__")) by congruence.
    run_steps.
    by destruct (JSON_parse data (reviver Buffer_from_other)).
  - rewrite !decide_False by discriminate.
    run_steps. fold (fetch_options req body).
    destruct (origin (fetch_options req body)) as [rr|e]; [|done].
    by fold (cacheObj rr).
Qed.

Lemma stringify_cacheObj_head rr :
  ∃ rest, JSON_stringify (cacheObj rr) = String "{" rest.
Proof. unfold cacheObj. cbn [JSON_stringify String.app]. eauto. Qed.

Lemma stringify_cacheObj_not_sentinel rr :
  JSON_stringify (cacheObj rr) ≠ "__REQUEST__" ∧
  JSON_stringify (cacheObj rr) ≠ "__BLOCK__".
Proof. destruct (stringify_cacheObj_head rr) as [rest ->]. by split. Qed.

Lemma interpret_cacheObj rr :
  interpret (Some (JSON_stringify (cacheObj rr))) = READY (JSON_stringify (cacheObj rr)).
Proof.
  destruct (stringify_cacheObj_not_sentinel rr) as [Hr Hb].
  unfold interpret. by rewrite !decide_False.
Qed.

Lemma interpret_ABSENT d : interpret d = ABSENT ↔ d = None.
Proof. unfold interpret. destruct d; repeat case_decide; naive_solver. Qed.

Lemma interpret_PENDING d : interpret d = PENDING ↔ d = Some "__REQUEST__".
Proof. unfold interpret. destruct d; repeat case_decide; naive_solver. Qed.

Lemma interpret_BLOCKED d : interpret d = BLOCKED ↔ d = Some "__BLOCK__".
Proof. unfold interpret. destruct d; repeat case_decide; naive_solver. Qed.

Lemma interpret_READY d p :
  interpret d = READY p ↔ d = Some p ∧ p ≠ "__REQUEST__" ∧ p ≠ "__BLOCK__".
Proof.
  unfold interpret. destruct d as [d|]; [|by split; [|intros [? _]]].
  repeat case_decide; split; try done.
  - intros [[= ->] [? ?]]; congruence.
  - intros [[= ->] [? ?]]; congruence.
  - by intros [= ->].
  - by intros [[= ->] _].
Qed.

(** The run for a key without an entry. *)
Lemma makeAPIRequest_absent req body id w :
  store w !! "lock" ≠ Some "true" →
  store w !! id = None →
  makeAPIRequest Buffer_from_other origin req body id w =
    let w4 := emit (Fetch (fetch_options req body))
                (put id "__REQUEST__" (emit (DbGet id) (emit (DbGet "lock") w))) in
    match origin (fetch_options req body) with
    | Ok rr => (Ok (cacheObj rr), put id (JSON_stringify (cacheObj rr)) w4)
    | Throw _ => (Throw (Error "gone"), put id "__BLOCK__" w4)
    end.
Proof.
  intros Hl Hd. rewrite makeAPIRequest_run. cbn zeta.
  rewrite decide_False by done. by rewrite Hd.
Qed.

(** The run for a key whose entry is not a sentinel. *)
Lemma makeAPIRequest_ready req body id w data :
  store w !! "lock" ≠ Some "true" →
  store w !! id = Some data →
  data ≠ "__REQUEST__" → data ≠ "__BLOCK__" →
  makeAPIRequest Buffer_from_other origin req body id w =
    (match JSON_parse data (reviver Buffer_from_other) with
     | Ok v => Ok v
     | Throw _ => Throw (Error "gone")
     end,
     emit (DbGet id) (emit (DbGet "lock") w)).
Proof.
  intros Hl Hd Hr Hb. rewrite makeAPIRequest_run. cbn zeta.
  rewrite decide_False by done. rewrite Hd. unfold interpret.
  rewrite !decide_False by done.
  by destruct (JSON_parse data (reviver Buffer_from_other)).
Qed.

(** Every effect of a run is one of the five steps of the coordinator. *)
Lemma makeAPIRequest_effects req body id w e :
  e ∈ trace (makeAPIRequest Buffer_from_other origin req body id w).2 →
  e ∈ trace w ∨
  e = DbGet "lock" ∨ e = DbGet id ∨ e = DbPut id "__REQUEST__" ∨
  e = Fetch (fetch_options req body) ∨ e = DbPut id "__BLOCK__" ∨
  ∃ rr, origin (fetch_options req body) = Ok rr ∧
        e = DbPut id (JSON_stringify (cacheObj rr)).
Proof.
  rewrite makeAPIRequest_run. cbn zeta.
  case_decide; [unfold emit; cbn [snd trace]; set_solver|].
  destruct (interpret (store w !! id)) as [| | |data].
  - destruct (origin (fetch_options req body)) as [rr|err] eqn:Ho;
      unfold put, emit; cbn [snd store trace];
      rewrite !elem_of_app, !list_elem_of_singleton; naive_solver.
  - unfold emit; cbn [snd trace]. set_solver.
  - unfold emit; cbn [snd trace]. set_solver.
  - destruct (JSON_parse data (reviver Buffer_from_other));
      unfold emit; cbn [snd trace]; set_solver.
Qed.

(** C1. For a key without a store entry (the availability flag being
    clear, as in step 2 of the algorithm), the coordinator reads the flag
    and the key, writes the PENDING sentinel, performs one origin fetch with
    a timeout of 180000 ms and then: if the origin responded, with whatever
    status code, it persists the serialized result (status, sanitized
    headers, raw body), which reads back as READY, and returns that result;
    if the fetch failed, it persists the BLOCKED sentinel and fails with
    Gone (410). *)
Theorem absent_key_single_fetch req body id w :
  store w !! "lock" ≠ Some "true" →
  store w !! id = None →
  let opts := fetch_options req body in
  let run := makeAPIRequest Buffer_from_other origin req body id w in
  opt_timeout opts = 180000 ∧
  match origin opts with
  | Ok rr =>
      run.1 = Ok (cacheObj rr) ∧
      trace run.2 =
        trace w ++ [DbGet "lock"; DbGet id; DbPut id "__REQUEST__"; Fetch opts;
                    DbPut id (JSON_stringify (cacheObj rr))] ∧
      store run.2 = <[id := JSON_stringify (cacheObj rr)]> (store w) ∧
      interpret (store run.2 !! id) = READY (JSON_stringify (cacheObj rr))
  | Throw e =>
      run.1 = Throw (Error "gone") ∧
      errCode (Error "gone") = 410 ∧
      trace run.2 =
        trace w ++ [DbGet "lock"; DbGet id; DbPut id "__REQUEST__"; Fetch opts;
                    DbPut id "__BLOCK__"] ∧
      store run.2 = <[id := "__BLOCK__"]> (store w) ∧
      interpret (store run.2 !! id) = BLOCKED
  end.
Proof.
  intros Hl Hd opts run. split; [done|].
  subst run opts. rewrite makeAPIRequest_run. cbn zeta.
  rewrite decide_False by done. rewrite Hd. cbn [interpret].
  destruct (origin (fetch_options req body)) as [rr|e];
    unfold put, emit; cbn [fst snd store trace];
    rewrite insert_insert_eq, <- !app_assoc; cbn [app];
    rewrite lookup_insert_eq.
  - by rewrite interpret_cacheObj.
  - done.
Qed.

(** What the handler answers when the coordinator throws. *)
Lemma onAPIRequest_throw req body id w err :
  getRequestId req body = Ok id →
  (makeAPIRequest Buffer_from_other origin req body id w).1 = Throw err →
  onAPIRequest Buffer_from_other origin req body w
  = (renderErrorPage (errCode err), (makeAPIRequest Buffer_from_other origin req body id w).2).
Proof.
  intros Hid Hrun. unfold onAPIRequest, mbind, M_bind, lift. rewrite Hid.
  destruct (makeAPIRequest Buffer_from_other origin req body id w) as [r w1].
  cbn [fst snd] in *. by subst r.
Qed.

Lemma unavailable_cases req body id w :
  let run := makeAPIRequest Buffer_from_other origin req body id w in
  ((∃ err, run.1 = Throw err ∧ errCode err = 503) ↔
     store w !! "lock" = Some "true" ∨ store w !! id = Some "__REQUEST__") ∧
  (∀ err, run.1 = Throw err → errCode err = 503 →
     err = Error "unavailable" ∧
     store run.2 = store w ∧
     (trace run.2 = trace w ++ [DbGet "lock"] ∨
      trace run.2 = trace w ++ [DbGet "lock"; DbGet id])) ∧
  (store w !! "lock" = Some "true" →
     run.1 = Throw (Error "unavailable") ∧
     trace run.2 = trace w ++ [DbGet "lock"]).
Proof.
  intros run. subst run. rewrite makeAPIRequest_run. cbn zeta.
  destruct (decide (store w !! "lock" = Some "true")) as [Hl|Hl].
  { cbn [fst snd]. split_and!; [split; eauto| |done].
    intros err [= <-] _. unfold emit; cbn [store trace]. eauto. }
  destruct (interpret (store w !! id)) as [| | |data] eqn:Hi; cbn [fst snd].
  - apply interpret_ABSENT in Hi.
    destruct (origin (fetch_options req body)) as [rr|e]; cbn [fst snd];
      (split_and!; [split; [by intros (err & [= <-] & ?)|by intros [?|?]; congruence]
                   |by intros err [= <-]|done]).
  - apply interpret_PENDING in Hi.
    split_and!; [split; eauto| |done].
    intros err [= <-] _. unfold emit; cbn [store trace].
    rewrite <- app_assoc. eauto.
  - apply interpret_BLOCKED in Hi.
    split_and!; [split; [by intros (err & [= <-] & ?)|by intros [?|?]; congruence]
                |by intros err [= <-]|done].
  - apply interpret_READY in Hi as (Hd & Hr & Hb).
    destruct (JSON_parse data (reviver Buffer_from_other)) as [v|e]; cbn [fst snd];
      (split_and!; [split; [by intros (err & [= <-] & ?)
                           |by intros [?|?]; congruence]
                   |try done; by intros err [= <-]|done]).
Qed.

(** C2. The coordinator fails with Unavailable, which the handler answers
    with status 503, exactly when the availability flag is set or the entry
    of the key is the PENDING sentinel.  It then writes nothing and performs
    no fetch; when the flag is set, the only store access is the read of the
    flag: the key is not looked up, whatever is stored under it. *)
Theorem unavailable_iff_flag_or_pending req body id w :
  let run := makeAPIRequest Buffer_from_other origin req body id w in
  ((∃ err, run.1 = Throw err ∧ errCode err = 503) ↔
     store w !! "lock" = Some "true" ∨ store w !! id = Some "__REQUEST__") ∧
  (∀ err, run.1 = Throw err → errCode err = 503 →
     err = Error "unavailable" ∧
     store run.2 = store w ∧
     (trace run.2 = trace w ++ [DbGet "lock"] ∨
      trace run.2 = trace w ++ [DbGet "lock"; DbGet id])) ∧
  (store w !! "lock" = Some "true" →
     run.1 = Throw (Error "unavailable") ∧
     trace run.2 = trace w ++ [DbGet "lock"]) ∧
  (getRequestId req body = Ok id →
   store w !! "lock" = Some "true" ∨ store w !! id = Some "__REQUEST__" →
   res_statusCode (onAPIRequest Buffer_from_other origin req body w).1 = Some (VNum 503)).
Proof.
  intros run. destruct (unavailable_cases req body id w) as (Hiff & Hstep & Hflag).
  fold run in Hiff, Hstep, Hflag. split_and!; [done..|].
  intros Hid Hcase. apply Hiff in Hcase as (err & Hrun & Hcode).
  rewrite (onAPIRequest_throw req body id w err Hid Hrun). by rewrite Hcode.
Qed.

(** C3 (amended). With the flag clear, a stored string that is the BLOCKED
    sentinel, or that is not the PENDING sentinel and on which [JSON.parse]
    with the Buffer reviver throws (the text is malformed, or the reviver
    fails, as on an object with [type: Buffer] and no [data]), makes the
    coordinator fail with Gone (410) after the two store reads, without a
    fetch and without a write.  A stored string on which [JSON.parse] with
    the reviver returns (the text nested within the reach of the engine)
    makes the coordinator return that value after the same two reads,
    whether or not the value has the shape of a payload; Gone is the
    outcome for the strings of the first kind only. *)
Theorem blocked_or_unparsable_is_gone req body id w data :
  store w !! "lock" ≠ Some "true" →
  store w !! id = Some data →
  let run := makeAPIRequest Buffer_from_other origin req body id w in
  (data = "__BLOCK__" ∨
     (data ≠ "__REQUEST__" ∧ ∃ e, JSON_parse data (reviver Buffer_from_other) = Throw e) →
   run.1 = Throw (Error "gone") ∧
   errCode (Error "gone") = 410 ∧
   trace run.2 = trace w ++ [DbGet "lock"; DbGet id] ∧
   store run.2 = store w) ∧
  (∀ v, shallow data →
        JSON_parse data (reviver Buffer_from_other) = Ok v →
   run.1 = Ok v ∧
   trace run.2 = trace w ++ [DbGet "lock"; DbGet id] ∧
   store run.2 = store w) ∧
  (shallow data →
   run.1 = Throw (Error "gone") →
   data = "__BLOCK__" ∨
     (data ≠ "__REQUEST__" ∧ ∃ e, JSON_parse data (reviver Buffer_from_other) = Throw e)).
Proof.
  intros Hl Hd run. subst run. rewrite makeAPIRequest_run. cbn zeta.
  rewrite decide_False by done. rewrite Hd.
  unfold emit; cbn [store trace]. rewrite <- app_assoc. cbn [app].
  split_and!.
  - intros [->|(Hr & e & He)]; [done|].
    unfold interpret. rewrite (decide_False (P := data = "__REQUEST__")) by done.
    case_decide; [done|]. by rewrite He.
  - intros v _ Hv.
    assert (data ≠ "__REQUEST__" ∧ data ≠ "__BLOCK__") as [Hr Hb].
    { split; intros ->; vm_compute in Hv; discriminate. }
    unfold interpret. rewrite !decide_False by done. by rewrite Hv.
  - intros _. unfold interpret.
    destruct (decide (data = "__REQUEST__")) as [->|Hr]; [done|].
    destruct (decide (data = "__BLOCK__")) as [->|Hb]; [by left|].
    destruct (JSON_parse data (reviver Buffer_from_other)) as [v|e] eqn:Hv; [done|].
    intros _. right. eauto.
Qed.

(** C6 (amended). The store accesses of the coordinator, branch by branch:
    with the flag set, one read (the flag) and no write; for a PENDING,
    BLOCKED or READY entry, two reads (the flag, the key) and no write; for
    an ABSENT key, the same two reads, the write of the PENDING sentinel,
    the fetch and exactly one further write, of the serialized result or of
    the BLOCKED sentinel. *)
Theorem store_accesses_by_branch req body id w :
  let run := makeAPIRequest Buffer_from_other origin req body id w in
  ∃ evs, trace run.2 = trace w ++ evs ∧
    if decide (store w !! "lock" = Some "true") then evs = [DbGet "lock"]
    else
      match interpret (store w !! id) with
      | ABSENT =>
          ∃ val,
            evs = [DbGet "lock"; DbGet id; DbPut id "__REQUEST__";
                   Fetch (fetch_options req body); DbPut id val] ∧
            match origin (fetch_options req body) with
            | Ok rr => val = JSON_stringify (cacheObj rr)
            | Throw _ => val = "__BLOCK__"
            end
      | PENDING | BLOCKED | READY _ => evs = [DbGet "lock"; DbGet id]
      end.
Proof.
  intros run. subst run. rewrite makeAPIRequest_run. cbn zeta.
  case_decide as Hl; [by eexists|].
  destruct (interpret (store w !! id)) as [| | |data].
  - destruct (origin (fetch_options req body)) as [rr|e];
      unfold put, emit; cbn [snd store trace];
      rewrite <- !app_assoc; cbn [app]; eauto.
  - unfold emit; cbn [snd trace]. rewrite <- app_assoc. eauto.
  - unfold emit; cbn [snd trace]. rewrite <- app_assoc. eauto.
  - destruct (JSON_parse data (reviver Buffer_from_other));
      unfold emit; cbn [snd trace]; rewrite <- app_assoc; eauto.
Qed.

Lemma makeAPIRequest_without_lock req body id w :
  store w !! "lock" ≠ Some "true" →
  id ≠ "lock" →
  let run := makeAPIRequest Buffer_from_other origin req body id w in
  let run' := makeAPIRequest Buffer_from_other origin req body id
                {| store := delete "lock" (store w); trace := trace w |} in
  run.1 = run'.1 ∧
  trace run.2 = trace run'.2 ∧
  delete "lock" (store run.2) = store run'.2 ∧
  DbGet id ∈ trace run.2.
Proof.
  intros Hl Hid run run'. subst run run'. rewrite !makeAPIRequest_run. cbn zeta.
  cbn [store trace]. rewrite lookup_delete_eq, lookup_delete_ne by done.
  rewrite !decide_False by done.
  destruct (interpret (store w !! id)) as [| | |data].
  - destruct (origin (fetch_options req body)) as [rr|e];
      unfold put, emit; cbn [fst snd store trace];
      rewrite !insert_insert_eq, delete_insert_ne by done;
      (split_and!; [done..|]); set_solver.
  - unfold emit; cbn [fst snd store trace]. split_and!; [done..|]. set_solver.
  - unfold emit; cbn [fst snd store trace]. split_and!; [done..|]. set_solver.
  - destruct (JSON_parse data (reviver Buffer_from_other));
      unfold emit; cbn [fst snd store trace]; (split_and!; [done..|]); set_solver.
Qed.

Lemma has_hyphen_app u t : has_hyphen (u +:+ String "-" t) = true.
Proof.
  induction u as [|c u IH]; [done|].
  change (has_hyphen (String c (u +:+ String "-" t)) = true).
  cbn [has_hyphen]. by case_decide.
Qed.

(** A key made by the identity resolver is never the name of the flag. *)
Lemma getRequestId_not_lock req body id :
  getRequestId req body = Ok id → id ≠ "lock".
Proof.
  unfold getRequestId.
  destruct (querystring_parse body !! "api_token") as [user|]; [|done].
  destruct (req_headers req !! "cache-token") as [token|]; [|done].
  intros [= <-] Heq.
  pose proof (has_hyphen_app (qs_to_string user) token) as Hh.
  change (String "-" token) with ("-" +:+ token) in Hh. by rewrite Heq in Hh.
Qed.

(** C10. The flag counts as set only when the string stored under [lock]
    is exactly [true]: with any other string there, or none, the
    coordinator, for every key other than [lock] itself (no key made by the
    identity resolver is [lock]), and with it the handler, behave as on the
    store without the [lock] entry; they give the same result, have the
    same effects and leave the same store (the [lock] entry apart), and the
    coordinator goes on to look the key up. *)
Theorem flag_set_only_by_true req body w :
  store w !! "lock" ≠ Some "true" →
  let w' := {| store := delete "lock" (store w); trace := trace w |} in
  (∀ id, id ≠ "lock" →
     let run := makeAPIRequest Buffer_from_other origin req body id w in
     let run' := makeAPIRequest Buffer_from_other origin req body id w' in
     run.1 = run'.1 ∧
     trace run.2 = trace run'.2 ∧
     delete "lock" (store run.2) = store run'.2 ∧
     DbGet id ∈ trace run.2) ∧
  (∀ id, getRequestId req body = Ok id → id ≠ "lock") ∧
  (let run := onAPIRequest Buffer_from_other origin req body w in
   let run' := onAPIRequest Buffer_from_other origin req body w' in
   run.1 = run'.1 ∧
   trace run.2 = trace run'.2 ∧
   delete "lock" (store run.2) = store run'.2).
Proof.
  intros Hl w'. split_and!.
  - intros id Hid. by apply makeAPIRequest_without_lock.
  - intros id. apply getRequestId_not_lock.
  - cbn zeta. unfold onAPIRequest, mbind, M_bind, lift.
    destruct (getRequestId req body) as [id|e] eqn:Hid; [|done].
    apply getRequestId_not_lock in Hid.
    destruct (makeAPIRequest_without_lock req body id w Hl Hid) as (H1 & H2 & H3 & _).
    fold w' in H1, H2, H3.
    destruct (makeAPIRequest Buffer_from_other origin req body id w) as [r1 w1].
    destruct (makeAPIRequest Buffer_from_other origin req body id w') as [r2 w2].
    cbn [fst snd] in H1, H2, H3. subst r2.
    destruct r1 as [data|err]; [|done]. by destruct (respond data).
Qed.

(** C5 (amended). When the body has no [api_token] field or the request no
    [cache-token] header, identity resolution fails with Forbidden and the
    handler answers 403 without touching the store; otherwise (empty tokens
    included) the key is the account token and the session token joined by
    a hyphen. *)
Theorem identity_resolution req body :
  match querystring_parse body !! "api_token", req_headers req !! "cache-token" with
  | Some user, Some token =>
      getRequestId req body = Ok (qs_to_string user +:+ "-" +:+ token)
  | _, _ =>
      getRequestId req body = Throw (Error "forbidden") ∧
      ∀ w, onAPIRequest Buffer_from_other origin req body w = (renderErrorPage 403, w) ∧
           res_statusCode (renderErrorPage 403) = Some (VNum 403)
  end.
Proof.
  unfold onAPIRequest, getRequestId, mbind, M_bind, lift.
  destruct (querystring_parse body !! "api_token") as [user|];
    destruct (req_headers req !! "cache-token") as [token|]; done.
Qed.

(** C9. Whatever the coordinator writes under a cache key is the PENDING
    sentinel, the BLOCKED sentinel, or the serialization of the cached
    object, which begins with an opening brace and so equals neither
    sentinel: read back, it is interpreted as READY, and a later request
    (flag clear) goes to the decoding branch, never to the PENDING or the
    BLOCKED one. *)
Theorem written_values_are_sentinels_or_objects req body id w key val :
  DbPut key val ∈ trace (makeAPIRequest Buffer_from_other origin req body id w).2 →
  DbPut key val ∈ trace w ∨
  (key = id ∧
   (val = "__REQUEST__" ∨ val = "__BLOCK__" ∨
    ∃ rr rest,
      val = JSON_stringify (cacheObj rr) ∧
      val = String "{" rest ∧
      val ≠ "__REQUEST__" ∧ val ≠ "__BLOCK__" ∧
      interpret (Some val) = READY val ∧
      ∀ req' body' w',
        store w' !! "lock" ≠ Some "true" →
        store w' !! id = Some val →
        makeAPIRequest Buffer_from_other origin req' body' id w' =
          (match JSON_parse val (reviver Buffer_from_other) with
           | Ok v => Ok v
           | Throw _ => Throw (Error "gone")
           end,
           emit (DbGet id) (emit (DbGet "lock") w')))).
Proof.
  intros Hin.
  apply makeAPIRequest_effects in Hin
    as [?|[[=]|[[=]|[[= -> ->]|[[=]|[[= -> ->]|(rr & _ & [= -> ->])]]]]]];
    [by left|right; split; [done|]..].
  - by left.
  - by right; left.
  - right; right.
    destruct (stringify_cacheObj_head rr) as [rest Hrest].
    destruct (stringify_cacheObj_not_sentinel rr) as [Hr Hb].
    exists rr, rest. split_and!; try done.
    intros req' body' w' Hl Hd. by apply makeAPIRequest_ready.
Qed.

Lemma well_formed_props (o : list (string * value)) :
  NoDup o.*1 → Forall (λ p, well_formed p.2) o → well_formed (VObj o).
Proof.
  intros Hnd Hall. split; [done|].
  induction Hall as [|p o Hp Ho IH]; [done|].
  split; [done|]. apply IH. by apply NoDup_cons in Hnd as [_ ?].
Qed.

Lemma untagged_props (o : list (string * value)) :
  get (VObj o) "type" ≠ Some (VStr "Buffer") →
  Forall (λ p, untagged p.2) o → untagged (VObj o).
Proof.
  intros Hty Hall. split; [done|]. clear Hty.
  induction Hall as [|p o Hp Ho IH]; [done|]. by split.
Qed.

Lemma well_formed_strings (l : list string) : well_formed (VArr (VStr <$> l)).
Proof. induction l as [|s l IH]; [done|]. by split. Qed.

Lemma untagged_strings (l : list string) : untagged (VArr (VStr <$> l)).
Proof. induction l as [|s l IH]; [done|]. by split. Qed.

Lemma well_formed_header h : well_formed (header_to_value h).
Proof. destruct h; [done|apply well_formed_strings]. Qed.

Lemma untagged_header h : untagged (header_to_value h).
Proof. destruct h; [done|apply untagged_strings]. Qed.

Lemma well_formed_headers (h : gmap string header_value) :
  well_formed (headers_to_value h).
Proof.
  apply well_formed_props; [apply NoDup_fst_map_to_list|].
  apply Forall_forall. intros [k v] Hin.
  apply elem_of_map_to_list in Hin. rewrite lookup_fmap in Hin.
  destruct (h !! k) as [hv|]; [|done]. injection Hin as <-.
  apply well_formed_header.
Qed.

Lemma untagged_headers (h : gmap string header_value) :
  h !! "type" ≠ Some (HOne "Buffer") →
  untagged (headers_to_value h).
Proof.
  intros Hty. apply untagged_props.
  - change (get (headers_to_value h) "type" ≠ Some (VStr "Buffer")).
    rewrite get_headers_to_value.
    destruct (h !! "type") as [[s|l]|]; [|done..].
    cbn. intros [= ->]. done.
  - apply Forall_forall. intros [k v] Hin.
    apply elem_of_map_to_list in Hin. rewrite lookup_fmap in Hin.
    destruct (h !! k) as [hv|]; [|done]. injection Hin as <-.
    apply untagged_header.
Qed.

(** The serialized result of a fetch decodes to the identical status code,
    headers and body, for every response whose sanitized headers do not
    give the header [type] the value [Buffer]. *)
Theorem payload_round_trip rr :
  removeProxyHeaders (msg_headers rr) !! "type" ≠ Some (HOne "Buffer") →
  JSON_parse (JSON_stringify (cacheObj rr)) (reviver Buffer_from_other) = Ok (cacheObj rr).
Proof.
  intros Hty. apply JSON_parse_stringify.
  - apply well_formed_props.
    + cbn [fmap list_fmap fst]. repeat (apply NoDup_cons; split; [set_solver|]).
      apply NoDup_nil_2.
    + apply Forall_cons_2; [done|]. apply Forall_cons_2; [apply well_formed_headers|].
      by apply Forall_cons_2.
  - apply untagged_props; [done|].
    apply Forall_cons_2; [done|]. apply Forall_cons_2; [by apply untagged_headers|].
    by apply Forall_cons_2.
Qed.

(** C4. With the flag clear, for a key whose entry decodes ([JSON.parse]
    with the reviver returns; the entry nested within the reach of the
    engine, as every payload is), the coordinator returns exactly the
    decoded value, reads the flag and the key and does nothing else: no
    fetch and no store write.  For an entry that the coordinator stored for
    a response of the origin (its sanitized headers without
    [type: Buffer]), the decoded value is the status code, the sanitized
    headers and the body of that response. *)
Theorem ready_entry_is_served req body id w data v :
  store w !! "lock" ≠ Some "true" →
  store w !! id = Some data →
  shallow data →
  JSON_parse data (reviver Buffer_from_other) = Ok v →
  let run := makeAPIRequest Buffer_from_other origin req body id w in
  run.1 = Ok v ∧
  trace run.2 = trace w ++ [DbGet "lock"; DbGet id] ∧
  store run.2 = store w ∧
  (∀ rr, data = JSON_stringify (cacheObj rr) →
         removeProxyHeaders (msg_headers rr) !! "type" ≠ Some (HOne "Buffer") →
         v = cacheObj rr ∧
         get v "statusCode" = Some (VNum (msg_statusCode rr)) ∧
         get v "headers" = Some (headers_to_value (removeProxyHeaders (msg_headers rr))) ∧
         get v "content" = Some (VBuffer (msg_body rr))).
Proof.
  intros Hl Hd _ Hv run. subst run. rewrite makeAPIRequest_run. cbn zeta.
  rewrite decide_False by done. rewrite Hd.
  unfold emit; cbn [store trace]. rewrite <- app_assoc. cbn [app].
  assert (data ≠ "__REQUEST__" ∧ data ≠ "__BLOCK__") as [Hr Hb].
  { split; intros ->; vm_compute in Hv; discriminate. }
  unfold interpret. rewrite !decide_False by done. rewrite Hv.
  split_and!; try done.
  intros rr -> Hty. rewrite (payload_round_trip rr Hty) in Hv.
  injection Hv as <-. done.
Qed.


(** A key fetched from a response without a header [type: Buffer] is
    served again from the store: the request after the one that fetched it
    gets the identical status code, headers and body, without a fetch. *)
Theorem fetched_result_is_served_again req body id w rr :
  store w !! "lock" ≠ Some "true" →
  store w !! id = None →
  origin (fetch_options req body) = Ok rr →
  removeProxyHeaders (msg_headers rr) !! "type" ≠ Some (HOne "Buffer") →
  let run1 := makeAPIRequest Buffer_from_other origin req body id w in
  let run2 := makeAPIRequest Buffer_from_other origin req body id run1.2 in
  run1.1 = Ok (cacheObj rr) ∧
  run2.1 = Ok (cacheObj rr) ∧
  trace run2.2 = trace run1.2 ++ [DbGet "lock"; DbGet id].
Proof.
  intros Hl Hd Ho Hty run1 run2. subst run2 run1.
  destruct (stringify_cacheObj_not_sentinel rr) as [Hr Hb].
  rewrite (makeAPIRequest_absent req body id w Hl Hd). cbn zeta. rewrite Ho.
  cbn [fst snd].
  rewrite (makeAPIRequest_ready req body id _ (JSON_stringify (cacheObj rr))); [|..|done|done].
  - rewrite (payload_round_trip rr Hty). unfold emit; cbn [fst snd trace].
    by rewrite <- app_assoc.
  - unfold put, emit; cbn [store]. rewrite insert_insert_eq.
    destruct (decide (id = "lock")) as [->|Hne].
    + rewrite lookup_insert_eq. by intros [= ?].
    + by rewrite lookup_insert_ne.
  - unfold put, emit; cbn [store]. apply lookup_insert_eq.
Qed.

End CoordinatorFacts.

(** C7 (failing input). The origin answers 200 with the headers
    [content-type: text/plain] and [type: Buffer] and the body [ok].  The
    first request fetches, persists and returns this result.  On the second
    request the reviver takes the stored header object, which has the
    property [type] with the string [Buffer], for a serialized [Buffer];
    [new Buffer(undefined)] throws, and the coordinator fails with Gone
    (410) instead of returning the stored status code, headers and body. *)
Theorem tagged_headers_break_round_trip (Buffer_from_other : value → result value) :
  let rr := {| msg_statusCode := 200;
               msg_headers := {[ "content-type" := HOne "text/plain";
                                 "type" := HOne "Buffer" ]};
               msg_body := "ok" |} in
  let run1 := makeAPIRequest Buffer_from_other origin_tagged sample_request
                "api_token=u1" "u1-t1" (world_of ∅) in
  let run2 := makeAPIRequest Buffer_from_other origin_tagged sample_request
                "api_token=u1" "u1-t1" run1.2 in
  run1.1 = Ok (cacheObj rr) ∧
  store run1.2 !! "u1-t1" = Some (JSON_stringify (cacheObj rr)) ∧
  JSON_parse (JSON_stringify (cacheObj rr)) (reviver Buffer_from_other) =
    Throw (TypeError "First argument must be a string, Buffer, ArrayBuffer, Array, or array-like object.") ∧
  run2.1 = Throw (Error "gone") ∧
  errCode (Error "gone") = 410.
Proof.
  cbn zeta.
  set (rr := {| msg_statusCode := 200;
                msg_headers := {[ "content-type" := HOne "text/plain";
                                  "type" := HOne "Buffer" ]};
                msg_body := "ok" |}).
  assert (JSON_parse (JSON_stringify (cacheObj rr)) (reviver Buffer_from_other) =
          Throw (TypeError "First argument must be a string, Buffer, ArrayBuffer, Array, or array-like object."))
    as Hparse by (vm_compute; reflexivity).
  destruct (stringify_cacheObj_not_sentinel rr) as [Hr Hb].
  rewrite (makeAPIRequest_absent Buffer_from_other origin_tagged sample_request
             "api_token=u1" "u1-t1" (world_of ∅)); [|by vm_compute|done].
  cbn zeta. change (origin_tagged _) with (@Ok incoming rr). cbn [fst snd].
  assert (store (put "u1-t1" (JSON_stringify (cacheObj rr))
                   (emit (Fetch (fetch_options sample_request "api_token=u1"))
                      (put "u1-t1" "__REQUEST__"
                         (emit (DbGet "u1-t1") (emit (DbGet "lock") (world_of ∅))))))
          = {[ "u1-t1" := JSON_stringify (cacheObj rr) ]}) as Hstore.
  { unfold put, emit; cbn [store world_of]. rewrite insert_insert_eq. apply insert_empty. }
  rewrite (makeAPIRequest_ready Buffer_from_other origin_tagged sample_request
             "api_token=u1" "u1-t1" _ (JSON_stringify (cacheObj rr)));
    [|rewrite Hstore..|done|done].
  - rewrite Hstore, Hparse. split_and!; [done|apply lookup_singleton_eq|done..].
  - by rewrite lookup_singleton_ne.
  - apply lookup_singleton_eq.
Qed.

(* ===================================================================== *)
(** * The sanitizer composed with itself *)
(* ===================================================================== *)

Section SanitizerComposition.
Context {A : Type}.
Implicit Types (h : gmap string A) (k : string).

(** X1. Sanitizing twice is sanitizing once: the sanitizer leaves what it
    returned as it is (the headers of a stored payload, which were
    sanitized before they were stored, can be sanitized again). *)
Theorem removeProxyHeaders_idempotent h :
  removeProxyHeaders (removeProxyHeaders h) = removeProxyHeaders h.
Proof.
  apply map_eq. intros k. rewrite !removeProxyHeaders_lookup.
  by case_decide.
Qed.

(** X2. The sanitizer returns a header map equal to the one it was given
    exactly when that map has none of the eight names. *)
Theorem removeProxyHeaders_fixed_point h :
  removeProxyHeaders h = h ↔ ∀ k, k ∈ proxyHeaders → h !! k = None.
Proof.
  split.
  - intros Heq k Hk. rewrite <- Heq. by apply removeProxyHeaders_removed.
  - intros Hnone. apply map_eq. intros k. rewrite removeProxyHeaders_lookup.
    case_decide; [by rewrite Hnone|done].
Qed.

End SanitizerComposition.

(* ===================================================================== *)
(** * The key and the text of the body *)
(* ===================================================================== *)

Lemma qs_of_snoc vs v :
  qs_of (vs ++ [v]) =
    Some match qs_of vs with
         | None => QOne v
         | Some (QOne v0) => QMany [v0; v]
         | Some (QMany l) => QMany (l ++ [v])
         end.
Proof. destruct vs as [|v0 [|v1 vs]]; try done. Qed.

Lemma values_of_snoc k fields x :
  values_of k (fields ++ [x]) =
    values_of k fields ++ (if decide (field_name x = k) then [field_value x] else []).
Proof.
  unfold values_of. rewrite filter_app, fmap_app. f_equal.
  rewrite filter_cons, filter_nil. by case_decide.
Qed.

Lemma qs_add_lookup obj k v k' :
  qs_add obj k v !! k' =
    if decide (k = k') then
      Some match obj !! k with
           | None => QOne v
           | Some (QOne v0) => QMany [v0; v]
           | Some (QMany l) => QMany (l ++ [v])
           end
    else obj !! k'.
Proof.
  unfold qs_add. case_decide as Hk.
  - subst k'. destruct (obj !! k) as [[v0|l]|]; by rewrite lookup_insert_eq.
  - destruct (obj !! k) as [[v0|l]|]; by rewrite lookup_insert_ne.
Qed.

Lemma fold_fields_lookup fields k :
  fold_left
    (λ obj x,
       let '(kstr, vstr) := split_eq x in
       qs_add obj (unescape (plus_to_space kstr)) (unescape (plus_to_space vstr)))
    fields ∅ !! k = qs_of (values_of k fields).
Proof.
  induction fields as [|x fields IH] using rev_ind; [done|].
  rewrite fold_left_app. cbn [fold_left].
  rewrite values_of_snoc.
  unfold field_name, field_value. destruct (split_eq x) as [kstr vstr]. cbn [fst snd].
  rewrite qs_add_lookup. case_decide as Hk.
  - subst k. rewrite qs_of_snoc. by rewrite IH.
  - by rewrite app_nil_r.
Qed.

Lemma querystring_parse_lookup body k :
  querystring_parse body !! k = qs_of (values_of k (body_fields body)).
Proof.
  unfold querystring_parse, body_fields. case_decide as Hb; [done|].
  apply fold_fields_lookup.
Qed.

Section Identity.

Implicit Types (req : request) (body : string).

(** X3. The key in terms of the text of the body, for a body of ASCII
    characters whose account tokens decode to ASCII characters (where bytes
    and text are the same, and decoding replaces nothing).  Of the fields
    of the body (at most the first 1000), those named [api_token] count:
    without one of them, or without the header [cache-token], the resolver
    fails with Forbidden; otherwise the key is their decoded values, joined
    by commas when the name occurs more than once, then a hyphen, then the
    header. *)
Theorem getRequestId_fields req body :
  ascii_text body = true →
  Forall (λ v, ascii_text v = true) (values_of "api_token" (body_fields body)) →
  getRequestId req body =
    match values_of "api_token" (body_fields body), req_headers req !! "cache-token" with
    | (_ :: _) as users, Some token => Ok (String.concat "," users +:+ "-" +:+ token)
    | _, _ => Throw (Error "forbidden")
    end.
Proof.
  intros _ _. unfold getRequestId. cbn zeta. rewrite querystring_parse_lookup.
  destruct (values_of "api_token" (body_fields body)) as [|u [|u' us]];
    destruct (req_headers req !! "cache-token"); reflexivity.
Qed.

End Identity.

Lemma plain_cons c s :
  plain (String c s) = true ↔
  (c ≠ "&"%char ∧ c ≠ "%"%char ∧ c ≠ "+"%char) ∧ plain s = true.
Proof.
  cbn [plain]. rewrite andb_true_iff, negb_true_iff, bool_decide_eq_false. naive_solver.
Qed.

Lemma plain_app s t : plain s = true → plain t = true → plain (s +:+ t) = true.
Proof.
  induction s as [|c s IH]; [done|]. intros [Hc Hs]%plain_cons Ht.
  change (plain (String c (s +:+ t)) = true). apply plain_cons. auto.
Qed.

Lemma split_plain s : plain s = true → split "&" s = [s].
Proof.
  induction s as [|c s IH]; [done|]. intros [(Hc & _ & _) Hs]%plain_cons.
  cbn [split]. rewrite decide_False by done. by rewrite IH.
Qed.

Lemma plus_to_space_plain s : plain s = true → plus_to_space s = s.
Proof.
  induction s as [|c s IH]; [done|]. intros [(_ & _ & Hc) Hs]%plain_cons.
  cbn [plus_to_space]. rewrite decide_False by done. by rewrite IH.
Qed.

Lemma unescape_plain s : plain s = true → unescape s = s.
Proof.
  induction s as [|c s IH]; [done|]. intros [(_ & Hc & _) Hs]%plain_cons.
  cbn [unescape]. rewrite decide_False by done. by rewrite IH.
Qed.

Lemma body_fields_single u :
  plain u = true →
  body_fields ("api_token=" +:+ u) = ["api_token=" +:+ u] ∧
  field_name ("api_token=" +:+ u) = "api_token" ∧
  field_value ("api_token=" +:+ u) = u.
Proof.
  intros Hu.
  assert (plain ("api_token=" +:+ u) = true) as Hp by (by apply plain_app).
  split_and!.
  - unfold body_fields. rewrite decide_False by done. by rewrite split_plain.
  - reflexivity.
  - unfold field_value.
    change (split_eq ("api_token=" +:+ u)) with ("api_token", u). cbn [snd].
    by rewrite plus_to_space_plain, unescape_plain.
Qed.

Lemma getRequestId_single req u t :
  plain u = true →
  req_headers req !! "cache-token" = Some t →
  getRequestId req ("api_token=" +:+ u) = Ok (u +:+ "-" +:+ t).
Proof.
  intros Hu Ht. unfold getRequestId. cbn zeta. rewrite querystring_parse_lookup, Ht.
  destruct (body_fields_single u Hu) as (-> & Hn & Hv).
  unfold values_of. rewrite filter_cons, filter_nil, decide_True by done.
  cbn [fmap list_fmap qs_of]. by rewrite Hv.
Qed.

(** X4. The key does not tell the two tokens apart: the account token
    [u-v] with the session token [t] and the account token [u] with the
    session token [v-t] get the same key, and so the same store entry. *)
Theorem keys_of_distinct_identities_coincide req1 req2 u v t :
  plain u = true → plain v = true →
  req_headers req1 !! "cache-token" = Some t →
  req_headers req2 !! "cache-token" = Some (v +:+ "-" +:+ t) →
  getRequestId req1 ("api_token=" +:+ (u +:+ "-" +:+ v)) = Ok (u +:+ "-" +:+ v +:+ "-" +:+ t) ∧
  getRequestId req2 ("api_token=" +:+ u) = Ok (u +:+ "-" +:+ v +:+ "-" +:+ t).
Proof.
  intros Hu Hv H1 H2. split.
  - rewrite (getRequestId_single req1 (u +:+ "-" +:+ v) t); [|by repeat apply plain_app|done].
    f_equal. by rewrite <- !string_app_assoc.
  - by apply getRequestId_single.
Qed.

(* ===================================================================== *)
(** * Histories of API requests *)
(* ===================================================================== *)

Section Histories.

Variable Buffer_from_other : value → result value.

Implicit Types (origin : options → result incoming) (req : request) (body id : string)
  (w : world) (calls : list ((options → result incoming) * request * string)).

(** The world after the handler is the world after the coordinator, if the
    identity resolver gives a key, and the world before otherwise. *)
Lemma onAPIRequest_world origin req body w :
  (onAPIRequest Buffer_from_other origin req body w).2 =
    match getRequestId req body with
    | Ok id => (makeAPIRequest Buffer_from_other origin req body id w).2
    | Throw _ => w
    end.
Proof.
  unfold onAPIRequest, mbind, M_bind, lift.
  destruct (getRequestId req body) as [id|e]; [|done].
  destruct (makeAPIRequest Buffer_from_other origin req body id w) as [[data|e] w1]; [|done].
  by destruct (respond data).
Qed.

(** What a run does to the store and which sentinel writes and fetches it
    adds. *)
Lemma makeAPIRequest_step origin req body id w :
  let run := makeAPIRequest Buffer_from_other origin req body id w in
  ∃ evs, trace run.2 = trace w ++ evs ∧
    ((store run.2 = store w ∧
      List.filter is_fetch evs = [] ∧ List.filter is_pending_put evs = [] ∧
      (store w !! "lock" = Some "true" ∨ store w !! id ≠ None)) ∨
     (store w !! "lock" ≠ Some "true" ∧ store w !! id = None ∧
      ∃ v, v ≠ "__REQUEST__" ∧ store run.2 = <[id := v]> (store w) ∧
           List.filter is_fetch evs = [Fetch (fetch_options req body)] ∧
           List.filter is_pending_put evs = [DbPut id "__REQUEST__"])).
Proof.
  intros run. subst run. rewrite makeAPIRequest_run. cbn zeta.
  case_decide as Hl.
  { eexists. split; [reflexivity|]. left. cbn. eauto. }
  destruct (interpret (store w !! id)) as [| | |data] eqn:Hi.
  - apply interpret_ABSENT in Hi.
    destruct (origin (fetch_options req body)) as [rr|e];
      unfold put, emit; cbn [snd store trace]; rewrite <- !app_assoc; cbn [app];
      (eexists; split; [reflexivity|]); right; (split_and!; [done..|]);
      eexists; rewrite insert_insert_eq; (split_and!; [|reflexivity|reflexivity|]).
    + apply stringify_cacheObj_not_sentinel.
    + cbn [List.filter is_pending_put]. rewrite bool_decide_eq_true_2 by done.
      rewrite bool_decide_eq_false_2; [done|]. apply stringify_cacheObj_not_sentinel.
    + done.
    + done.
  - apply interpret_PENDING in Hi.
    unfold emit; cbn [snd store trace]; rewrite <- !app_assoc; cbn [app].
    eexists; split; [reflexivity|]. left. split_and!; try done. right. by rewrite Hi.
  - apply interpret_BLOCKED in Hi.
    unfold emit; cbn [snd store trace]; rewrite <- !app_assoc; cbn [app].
    eexists; split; [reflexivity|]. left. split_and!; try done. right. by rewrite Hi.
  - apply interpret_READY in Hi as (Hi & _).
    destruct (JSON_parse data (reviver Buffer_from_other));
      unfold emit; cbn [snd store trace]; rewrite <- !app_assoc; cbn [app];
      (eexists; split; [reflexivity|]); left; (split_and!; try done); right; by rewrite Hi.
Qed.


(** The same for the handler. *)
Lemma onAPIRequest_step origin req body w :
  let w1 := (onAPIRequest Buffer_from_other origin req body w).2 in
  ∃ evs, trace w1 = trace w ++ evs ∧
    ((store w1 = store w ∧
      List.filter is_fetch evs = [] ∧ List.filter is_pending_put evs = []) ∨
     (∃ id v, getRequestId req body = Ok id ∧
        store w !! "lock" ≠ Some "true" ∧ store w !! id = None ∧
        v ≠ "__REQUEST__" ∧ store w1 = <[id := v]> (store w) ∧
        List.filter is_fetch evs = [Fetch (fetch_options req body)] ∧
        List.filter is_pending_put evs = [DbPut id "__REQUEST__"])).
Proof.
  cbn zeta. rewrite onAPIRequest_world.
  destruct (getRequestId req body) as [id|e] eqn:Hid.
  - destruct (makeAPIRequest_step origin req body id w) as (evs & Htr & Hcase).
    exists evs. split; [done|].
    destruct Hcase as [(? & ? & ? & _)|(? & ? & v & ? & ? & ? & ?)]; [by left|].
    right. by exists id, v.
  - exists []. rewrite app_nil_r. split; [done|by left].
Qed.

Lemma serve_cons origin req body calls w :
  serve Buffer_from_other ((origin, req, body) :: calls) w =
    ((onAPIRequest Buffer_from_other origin req body w).1
       :: (serve Buffer_from_other calls (onAPIRequest Buffer_from_other origin req body w).2).1,
     (serve Buffer_from_other calls (onAPIRequest Buffer_from_other origin req body w).2).2).
Proof.
  cbn [serve]. destruct (onAPIRequest _ _ _ _ _) as [r w1]. cbn [fst snd].
  by destruct (serve _ _ _) as [rs w2].
Qed.

(** The entry of a key after a history: the one before it, or, for a key
    that had none and is not the name of the flag, a value that is not the
    PENDING sentinel. *)
Lemma serve_store calls w k :
  store (serve Buffer_from_other calls w).2 !! k = store w !! k ∨
  (store w !! k = None ∧ k ≠ "lock" ∧
   ∃ v, store (serve Buffer_from_other calls w).2 !! k = Some v ∧ v ≠ "__REQUEST__").
Proof.
  revert w. induction calls as [|[[origin req] body] calls IH]; intros w; [by left|].
  rewrite serve_cons. cbn [snd].
  destruct (onAPIRequest_step origin req body w) as (evs & _ & Hcase).
  cbn zeta in Hcase.
  set (w1 := (onAPIRequest Buffer_from_other origin req body w).2) in *.
  destruct Hcase as [(Hst & _)|(id & v & Hid & Hl & Hd & Hv & Hst & _)].
  - rewrite <- Hst. apply IH.
  - destruct (decide (k = id)) as [->|Hne].
    + right. split; [done|]. split; [by eapply getRequestId_not_lock|].
      destruct (IH w1) as [Heq|(Hnone & _)].
      * exists v. rewrite Heq, Hst, lookup_insert_eq. done.
      * rewrite Hst, lookup_insert_eq in Hnone. done.
    + replace (store w !! k) with (store w1 !! k); [apply IH|].
      rewrite Hst. by rewrite lookup_insert_ne.
Qed.

(** X5. The store after a history of API requests.  An entry, whatever it is
    (a sentinel, a payload, anything else), is still there: the server
    never refreshes, unblocks or removes one.  The availability flag is as
    before.  No key is left with the PENDING sentinel that did not have it
    before. *)
Theorem store_after_requests calls w :
  let w' := (serve Buffer_from_other calls w).2 in
  (∀ k d, store w !! k = Some d → store w' !! k = Some d) ∧
  store w' !! "lock" = store w !! "lock" ∧
  (∀ k, store w' !! k = Some "__REQUEST__" → store w !! k = Some "__REQUEST__").
Proof.
  cbn zeta. split_and!.
  - intros k d Hk. destruct (serve_store calls w k) as [->|(Hnone & _)]; congruence.
  - by destruct (serve_store calls w "lock") as [->|(_ & ? & _)].
  - intros k Hk. destruct (serve_store calls w k) as [<-|(_ & _ & v & Hv & Hne)]; congruence.
Qed.


Lemma filter_pending_put_of id evs :
  List.filter (is_pending_put_of id) evs =
    List.filter (is_pending_put_of id) (List.filter is_pending_put evs).
Proof.
  induction evs as [|e evs IH]; [done|]. cbn [List.filter].
  destruct e as [k|k v|opts]; cbn [is_pending_put is_pending_put_of]; try done.
  destruct (decide (v = "__REQUEST__")) as [->|Hv].
  - rewrite (bool_decide_eq_true_2 ("__REQUEST__" = "__REQUEST__")) by done.
    cbn [List.filter is_pending_put_of].
    rewrite (bool_decide_eq_true_2 ("__REQUEST__" = "__REQUEST__")) by done.
    by rewrite IH.
  - rewrite !(bool_decide_eq_false_2 (v = "__REQUEST__")) by done.
    by rewrite andb_false_r.
Qed.

(** X6. In a history of API requests every origin fetch comes with one write
    of the PENDING sentinel, and no key gets that write twice: a key is
    fetched at most once, and not at all when it has an entry at the
    start, whatever that entry is and however many requests ask for it. *)
Theorem one_fetch_per_key calls w :
  ∃ evs, trace (serve Buffer_from_other calls w).2 = trace w ++ evs ∧
    length (List.filter is_fetch evs) = length (List.filter is_pending_put evs) ∧
    ∀ id, (length (List.filter (is_pending_put_of id) evs) ≤ 1)%nat ∧
          (store w !! id ≠ None → List.filter (is_pending_put_of id) evs = []).
Proof.
  revert w. induction calls as [|[[origin req] body] calls IH]; intros w.
  { exists []. rewrite app_nil_r. split_and!; [done..|]. intros id. by split; [cbn; lia|]. }
  rewrite serve_cons. cbn [snd].
  destruct (onAPIRequest_step origin req body w) as (evs1 & Htr1 & Hcase).
  cbn zeta in Htr1, Hcase.
  set (w1 := (onAPIRequest Buffer_from_other origin req body w).2) in *.
  destruct (IH w1) as (evs2 & Htr2 & Hlen2 & Hkeys2).
  exists (evs1 ++ evs2). split; [by rewrite Htr2, Htr1, app_assoc|].
  rewrite !List.filter_app, !length_app.
  destruct Hcase as [(Hst & Hf & Hp)|(id1 & v & Hid & Hl & Hd & Hv & Hst & Hf & Hp)].
  - rewrite Hf, Hp. split; [by rewrite Hlen2|].
    intros id. rewrite List.filter_app, (filter_pending_put_of id evs1), Hp.
    cbn [List.filter app]. rewrite <- Hst. apply Hkeys2.
  - rewrite Hf, Hp. split; [cbn [length]; by rewrite Hlen2|].
    intros id. rewrite List.filter_app, (filter_pending_put_of id evs1), Hp.
    cbn [List.filter is_pending_put_of]. rewrite (bool_decide_eq_true_2 (_ = "__REQUEST__")) by done.
    rewrite andb_true_r. destruct (Hkeys2 id) as [Hle Hnone].
    case_bool_decide as Heq.
    + subst id1. rewrite Hnone; [|by rewrite Hst, lookup_insert_eq].
      split; [cbn; lia|]. by rewrite Hd.
    + cbn [app]. split; [done|]. intros Hsome. apply Hnone.
      rewrite Hst. by rewrite lookup_insert_ne.
Qed.


(** Once the key of a request has an entry, or the flag is set, nothing
    else of the request counts. *)
Lemma stored_entry_decides origin origin' req body req' body' w :
  getRequestId req body = getRequestId req' body' →
  (∀ id, getRequestId req body = Ok id →
         store w !! "lock" = Some "true" ∨ store w !! id ≠ None) →
  onAPIRequest Buffer_from_other origin req body w =
  onAPIRequest Buffer_from_other origin' req' body' w.
Proof.
  intros Hsame Hentry. unfold onAPIRequest, mbind, M_bind, lift. rewrite <- Hsame.
  destruct (getRequestId req body) as [id|e]; [|done].
  rewrite !makeAPIRequest_run. cbn zeta.
  destruct (Hentry id eq_refl) as [Hl|Hd].
  - by rewrite !decide_True.
  - case_decide; [done|].
    destruct (store w !! id) as [d|]; [|done]. unfold interpret.
    repeat case_decide; done.
Qed.

(** The response of the handler reads the store at the flag and at the
    key of the request only. *)
Lemma onAPIRequest_reads origin req body w w' :
  store w' !! "lock" = store w !! "lock" →
  (∀ id, getRequestId req body = Ok id → store w' !! id = store w !! id) →
  (onAPIRequest Buffer_from_other origin req body w').1 =
  (onAPIRequest Buffer_from_other origin req body w).1.
Proof.
  intros Hl Hd. unfold onAPIRequest, mbind, M_bind, lift.
  destruct (getRequestId req body) as [id|e]; [|done].
  rewrite !makeAPIRequest_run. cbn zeta. rewrite Hl, (Hd id eq_refl).
  case_decide; [done|].
  destruct (interpret (store w !! id)) as [| | |data]; try done.
  - by destruct (origin (fetch_options req body)).
  - destruct (JSON_parse data (reviver Buffer_from_other)) as [v|e]; [|done].
    by destruct (respond v).
Qed.

(** X7. Once the key of a request has an entry, or the flag is set, the
    response is fixed: after whatever API requests, every request with the
    same tokens gets the response that one gets now, whatever its method,
    URL, other headers and other body fields, and whatever the origin would
    say. *)
Theorem entry_fixes_the_response origin origin' req body req' body' w calls :
  getRequestId req body = getRequestId req' body' →
  (∀ id, getRequestId req body = Ok id →
         store w !! "lock" = Some "true" ∨ store w !! id ≠ None) →
  (onAPIRequest Buffer_from_other origin' req' body' (serve Buffer_from_other calls w).2).1 =
  (onAPIRequest Buffer_from_other origin req body w).1.
Proof.
  intros Hsame Hentry.
  rewrite (stored_entry_decides origin origin' req body req' body' w Hsame Hentry).
  assert (store (serve Buffer_from_other calls w).2 !! "lock" = store w !! "lock") as Hl.
  { by destruct (serve_store calls w "lock") as [->|(_ & ? & _)]. }
  destruct (decide (store w !! "lock" = Some "true")) as [Hset|Hclear].
  - unfold onAPIRequest, mbind, M_bind, lift.
    destruct (getRequestId req' body') as [id|e]; [|done].
    rewrite !makeAPIRequest_run. cbn zeta. rewrite Hl. by rewrite !decide_True.
  - apply onAPIRequest_reads; [done|].
    intros id Hid. rewrite <- Hsame in Hid.
    destruct (Hentry id Hid) as [?|Hsome]; [done|].
    destruct (serve_store calls w id) as [->|(Hnone & _)]; done.
Qed.

(** X8. A key whose fetch failed is blocked for good: whatever API requests
    follow, every later request for that key is answered 410 after the two
    store reads, without a fetch, as long as the flag stays clear (no API
    request sets it). *)
Theorem failed_fetch_blocks_key_for_good origin req body id e w calls origin' req' body' :
  getRequestId req body = Ok id →
  store w !! "lock" ≠ Some "true" →
  store w !! id = None →
  origin (fetch_options req body) = Throw e →
  getRequestId req' body' = Ok id →
  let w1 := (onAPIRequest Buffer_from_other origin req body w).2 in
  let w2 := (serve Buffer_from_other calls w1).2 in
  store w1 !! id = Some "__BLOCK__" ∧
  onAPIRequest Buffer_from_other origin' req' body' w2 =
    (renderErrorPage 410, emit (DbGet id) (emit (DbGet "lock") w2)).
Proof.
  intros Hid Hl Hd Ho Hid' w1 w2.
  assert (store w1 = <[id := "__BLOCK__"]> (store w)) as Hst1.
  { subst w1. rewrite onAPIRequest_world, Hid, makeAPIRequest_absent by done.
    cbn zeta. rewrite Ho. unfold put, emit; cbn [snd store]. apply insert_insert_eq. }
  assert (store w1 !! id = Some "__BLOCK__") as Hb1 by (by rewrite Hst1, lookup_insert_eq).
  split; [done|].
  assert (store w2 !! id = Some "__BLOCK__") as Hb2.
  { destruct (serve_store calls w1 id) as [Heq|(Hnone & _)]; [|congruence].
    by rewrite <- Hb1. }
  assert (store w2 !! "lock" ≠ Some "true") as Hl2.
  { destruct (serve_store calls w1 "lock") as [Heq|(_ & ? & _)]; [|done].
    fold w2 in Heq. rewrite Heq, Hst1, lookup_insert_ne; [done|].
    by apply getRequestId_not_lock in Hid. }
  assert (makeAPIRequest Buffer_from_other origin' req' body' id w2 =
          (Throw (Error "gone"), emit (DbGet id) (emit (DbGet "lock") w2))) as Hrun.
  { rewrite makeAPIRequest_run. cbn zeta. rewrite decide_False by done. by rewrite Hb2. }
  rewrite (onAPIRequest_throw Buffer_from_other origin' req' body' id w2 (Error "gone") Hid');
    by rewrite Hrun.
Qed.


(** X10. A stored entry that is the JSON text [null]: the coordinator returns
    [null], reading its [statusCode] throws, and the handler answers with
    the page of status 500 (not 410). *)
Theorem null_entry_is_internal_error origin req body id w data :
  getRequestId req body = Ok id →
  store w !! "lock" ≠ Some "true" →
  store w !! id = Some data →
  JSON_parse_text data = Ok VNull →
  onAPIRequest Buffer_from_other origin req body w =
    (renderErrorPage 500, emit (DbGet id) (emit (DbGet "lock") w)).
Proof.
  intros Hid Hl Hd Hnull.
  assert (data ≠ "__REQUEST__" ∧ data ≠ "__BLOCK__") as [Hr Hb].
  { split; intros ->; vm_compute in Hnull; discriminate. }
  unfold onAPIRequest, mbind, M_bind, lift. rewrite Hid.
  rewrite (makeAPIRequest_ready Buffer_from_other origin req body id w data) by done.
  unfold JSON_parse. by rewrite Hnull.
Qed.

(** X14. An entry whose decoded value has no status code (a number, a
    string, an array, an object without [statusCode], [null]): the
    coordinator returns the value, [res.writeHead] throws for the undefined
    status code (for [null], reading the property throws), and the handler
    answers with the page of status 500, after the two store reads and
    nothing else. *)
Theorem entry_without_status_code_is_internal_error origin req body id w data v :
  getRequestId req body = Ok id →
  store w !! "lock" ≠ Some "true" →
  store w !! id = Some data →
  shallow data →
  JSON_parse data (reviver Buffer_from_other) = Ok v →
  get v "statusCode" = None →
  (makeAPIRequest Buffer_from_other origin req body id w).1 = Ok v ∧
  onAPIRequest Buffer_from_other origin req body w =
    (renderErrorPage 500, emit (DbGet id) (emit (DbGet "lock") w)).
Proof.
  intros Hid Hl Hd _ Hv Hsc.
  assert (data ≠ "__REQUEST__" ∧ data ≠ "__BLOCK__") as [Hr Hb].
  { split; intros ->; vm_compute in Hv; discriminate. }
  unfold onAPIRequest, mbind, M_bind, lift. rewrite Hid.
  rewrite (makeAPIRequest_ready Buffer_from_other origin req body id w data) by done.
  rewrite Hv. split; [done|].
  unfold respond, member, mbind, result_bind.
  destruct v; try (rewrite Hsc); done.
Qed.

(** X11. The fetch of an API request carries the method, the URL and the body
    of the request as they came, the sanitized headers and the timeout; the
    body is never replaced by [null], since a request without a body has no
    account token and is refused before. *)
Theorem fetch_forwards_the_request origin req body w opts :
  Fetch opts ∈ trace (onAPIRequest Buffer_from_other origin req body w).2 →
  Fetch opts ∈ trace w ∨
  (body ≠ "" ∧
   opts = {| opt_method := req_method req;
             opt_url := req_url req;
             opt_body := Some body;
             opt_headers := removeProxyHeaders (req_headers req);
             opt_encoding := None;
             opt_timeout := 180000 |}).
Proof.
  rewrite onAPIRequest_world.
  destruct (getRequestId req body) as [id|e] eqn:Hid; [|by left].
  intros Hin.
  apply makeAPIRequest_effects in Hin
    as [?|[[=]|[[=]|[[=]|[[= ->]|[[=]|(rr & _ & [=])]]]]]]; [by left|right].
  assert (body ≠ "") as Hbody.
  { intros ->. by vm_compute in Hid. }
  split; [done|]. unfold fetch_options. by destruct body.
Qed.


(** X12. While the flag is set no API request gets through: in any history
    every request is answered 503, or 403 when a token is missing; nothing
    is fetched and the store stays as it is. *)
Theorem flag_set_refuses_every_request calls w :
  store w !! "lock" = Some "true" →
  let run := serve Buffer_from_other calls w in
  Forall (λ r, r = renderErrorPage 503 ∨ r = renderErrorPage 403) run.1 ∧
  store run.2 = store w ∧
  ∃ evs, trace run.2 = trace w ++ evs ∧ Forall (λ e, e = DbGet "lock") evs.
Proof.
  cbn zeta. revert w. induction calls as [|[[origin req] body] calls IH]; intros w Hl.
  { split_and!; [done..|]. exists []. by rewrite app_nil_r. }
  rewrite serve_cons. cbn [fst snd].
  assert (∃ r evs1,
            onAPIRequest Buffer_from_other origin req body w
            = (r, {| store := store w; trace := trace w ++ evs1 |}) ∧
            (r = renderErrorPage 503 ∨ r = renderErrorPage 403) ∧
            Forall (λ e, e = DbGet "lock") evs1) as (r & evs1 & -> & Hr & Hevs1).
  { unfold onAPIRequest, mbind, M_bind, lift.
    destruct (getRequestId req body) as [id|err] eqn:Hid.
    - rewrite makeAPIRequest_run. cbn zeta. rewrite decide_True by done.
      eexists _, [DbGet "lock"]. split; [reflexivity|]. split; [by left|].
      by apply Forall_singleton.
    - exists (renderErrorPage 403), []. rewrite app_nil_r. split_and!; [|by right|done].
      unfold getRequestId in Hid.
      destruct (querystring_parse body !! "api_token"), (req_headers req !! "cache-token");
        try done; injection Hid as <-; by destruct w. }
  cbn [fst snd].
  destruct (IH {| store := store w; trace := trace w ++ evs1 |} Hl)
    as (Hrs & Hst & evs2 & Htr & Hevs2).
  split_and!.
  - by apply Forall_cons_2.
  - done.
  - exists (evs1 ++ evs2). rewrite Htr. cbn [trace]. split; [by rewrite app_assoc|].
    by apply Forall_app_2.
Qed.

End Histories.

(* ===================================================================== *)
(** * When the stored payload decodes *)
(* ===================================================================== *)

Section Payload.

Variable Buffer_from_other : value → result value.

Lemma well_formed_cacheObj rr : well_formed (cacheObj rr).
Proof.
  apply well_formed_props.
  - cbn [fmap list_fmap fst]. repeat (apply NoDup_cons; split; [set_solver|]).
    apply NoDup_nil_2.
  - apply Forall_cons_2; [done|]. apply Forall_cons_2; [apply well_formed_headers|].
    by apply Forall_cons_2.
Qed.

Lemma new_Buffer_is_Buffer arg x :
  (∀ v y, Buffer_from_other v = Ok y → ∃ b, y = VBuffer b) →
  new_Buffer Buffer_from_other arg = Ok x → ∃ b, x = VBuffer b.
Proof.
  intros HB. unfold new_Buffer.
  destruct arg as [[| | | | |elems| |]|]; try done; try (by intros [= <-]; eauto);
    try apply HB.
  destruct (bytes_of_integers elems); [by intros [= <-]; eauto|apply HB].
Qed.

(** What the walk of [JSON.parse] makes of the header object of a stored
    payload. *)
Lemma internalize_headers (h : gmap string header_value) key :
  internalize (reviver Buffer_from_other) key (jsonify (headers_to_value h)) =
    reviver Buffer_from_other key (headers_to_value h).
Proof.
  unfold headers_to_value. cbn [jsonify]. rewrite internalize_VObj.
  rewrite internalize_props_jsonify; [done| |].
  - apply Forall_forall. intros p _. apply internalize_jsonify.
  - assert (Forall (λ p : string * value, untagged p.2)
              (map_to_list (header_to_value <$> h))) as Hall.
    { apply Forall_forall. intros [k v] Hin.
      apply elem_of_map_to_list in Hin. rewrite lookup_fmap in Hin.
      destruct (h !! k) as [hv|]; [|done]. injection Hin as <-.
      apply untagged_header. }
    induction Hall as [|p l Hp Hl IH]; [done|]. by split.
Qed.

(** X13. The stored payload of a response decodes to the identical status code,
    headers and body exactly when the sanitized headers of the response do
    not give the header [type] the value [Buffer] (provided that
    [new Buffer] returns nothing but buffers). *)
Theorem payload_round_trip_iff rr :
  (∀ v y, Buffer_from_other v = Ok y → ∃ b, y = VBuffer b) →
  JSON_parse (JSON_stringify (cacheObj rr)) (reviver Buffer_from_other) = Ok (cacheObj rr)
  ↔ removeProxyHeaders (msg_headers rr) !! "type" ≠ Some (HOne "Buffer").
Proof.
  intros HB. split; [|apply payload_round_trip].
  intros Hparse Hty. revert Hparse.
  unfold JSON_parse. rewrite JSON_parse_text_stringify by apply well_formed_cacheObj.
  unfold cacheObj. cbn [jsonify map fst snd]. rewrite internalize_VObj.
  cbn [internalize_props].
  change (internalize (reviver Buffer_from_other) "statusCode" (VNum (msg_statusCode rr)))
    with (reviver Buffer_from_other "statusCode" (VNum (msg_statusCode rr))).
  rewrite reviver_other by done. rewrite internalize_headers.
  set (h := removeProxyHeaders (msg_headers rr)) in *.
  assert (reviver Buffer_from_other "headers" (headers_to_value h)
          = new_Buffer Buffer_from_other (get (headers_to_value h) "data")) as ->.
  { unfold reviver. rewrite get_headers_to_value, Hty.
    cbn [fmap option_fmap option_map header_to_value].
    unfold headers_to_value at 1. cbn [truthy]. by rewrite decide_True. }
  destruct (new_Buffer Buffer_from_other (get (headers_to_value h) "data")) as [x|e] eqn:Hnew;
    [|done].
  apply new_Buffer_is_Buffer in Hnew as [b ->]; [|done].
  pose proof (internalize_jsonify Buffer_from_other (VBuffer (msg_body rr)) I "content") as Hc.
  cbn [jsonify] in Hc. rewrite Hc.
  unfold reviver. cbn. discriminate.
Qed.

End Payload.

(* ===================================================================== *)
(** * The theorems at sample inputs *)
(* ===================================================================== *)

Lemma absent_key_single_fetch_witness :
  let w := world_of ∅ in
  let run := makeAPIRequest no_other_Buffer origin_ok sample_request "api_token=u1" "u1-t1" w in
  store w !! "lock" ≠ Some "true" ∧
  store w !! "u1-t1" = None ∧
  run.1 = Ok (VObj [ ("statusCode", VNum 200);
                     ("headers", VObj [("content-type", VStr "text/plain")]);
                     ("content", VBuffer "ok") ]) ∧
  store run.2 !! "u1-t1" =
    Some (JSON_stringify (cacheObj {| msg_statusCode := 200;
                                      msg_headers := {[ "content-type" := HOne "text/plain";
                                                        "connection" := HOne "close" ]};
                                      msg_body := "ok" |})).
Proof.
  cbn zeta.
  assert (store (world_of ∅) !! "lock" ≠ Some "true") as Hl by (vm_compute; discriminate).
  assert (store (world_of ∅) !! "u1-t1" = None) as Hd by reflexivity.
  split; [exact Hl|]. split; [exact Hd|].
  destruct (absent_key_single_fetch no_other_Buffer origin_ok sample_request
              "api_token=u1" "u1-t1" (world_of ∅) Hl Hd) as (_ & Hres & _ & Hst & _).
  split.
  - rewrite Hres. reflexivity.
  - rewrite Hst. apply lookup_insert_eq.
Defined.

Lemma blocked_or_unparsable_is_gone_witness :
  let tagged := JSON_stringify (VObj [("type", VStr "Buffer")]) in
  let listed := JSON_stringify (VArr [VNum 1; VNum 2]) in
  let run := λ data, makeAPIRequest no_other_Buffer origin_ok sample_request "api_token=u1"
                       "u1-t1" (world_of {[ "u1-t1" := data ]}) in
  (run "{not json").1 = Throw (Error "gone") ∧
  trace (run "{not json").2 = [DbGet "lock"; DbGet "u1-t1"] ∧
  (run tagged).1 = Throw (Error "gone") ∧
  (run listed).1 = Ok (VArr [VNum 1; VNum 2]) ∧
  trace (run listed).2 = [DbGet "lock"; DbGet "u1-t1"].
Proof.
  cbn zeta.
  assert (∀ data, store (world_of {[ "u1-t1" := data ]}) !! "lock" ≠ Some "true")
    as Hl by (intros data; vm_compute; discriminate).
  assert (∀ data, store (world_of {[ "u1-t1" := data ]}) !! "u1-t1" = Some data)
    as Hd by (intros data; apply lookup_singleton_eq).
  destruct (blocked_or_unparsable_is_gone no_other_Buffer origin_ok sample_request
              "api_token=u1" "u1-t1" _ "{not json" (Hl _) (Hd _)) as (Hgone1 & _ & _).
  destruct Hgone1 as (Hres1 & _ & Htr1 & _).
  { right. split; [discriminate|]. eexists. vm_compute. reflexivity. }
  destruct (blocked_or_unparsable_is_gone no_other_Buffer origin_ok sample_request
              "api_token=u1" "u1-t1" _ (JSON_stringify (VObj [("type", VStr "Buffer")]))
              (Hl _) (Hd _)) as (Hgone2 & _ & _).
  destruct Hgone2 as (Hres2 & _).
  { right. split; [discriminate|]. eexists. vm_compute. reflexivity. }
  destruct (blocked_or_unparsable_is_gone no_other_Buffer origin_ok sample_request
              "api_token=u1" "u1-t1" _ (JSON_stringify (VArr [VNum 1; VNum 2]))
              (Hl _) (Hd _)) as (_ & Hback & _).
  destruct (Hback (VArr [VNum 1; VNum 2])) as (Hres3 & Htr3 & _).
  { unfold shallow. vm_compute. lia. }
  { vm_compute. reflexivity. }
  split_and!; [exact Hres1|exact Htr1|exact Hres2|exact Hres3|exact Htr3].
Defined.

(** C3, as stated, fails: the stored string [123] is neither a sentinel nor
    the encoding of a payload, yet the coordinator does not fail with Gone;
    it returns the number. *)
Lemma stored_number_is_returned :
  let w := world_of {[ "u1-t1" := "123" ]} in
  let run := makeAPIRequest no_other_Buffer origin_ok sample_request "api_token=u1" "u1-t1" w in
  interpret (store w !! "u1-t1") = READY "123" ∧
  get (VNum 123) "statusCode" = None ∧
  run.1 = Ok (VNum 123) ∧
  run.1 ≠ Throw (Error "gone").
Proof. cbn zeta. split_and!; [reflexivity..|discriminate]. Qed.

Lemma ready_entry_is_served_witness :
  let rr := {| msg_statusCode := 200;
               msg_headers := {[ "content-type" := HOne "text/plain";
                                 "connection" := HOne "close" ]};
               msg_body := "ok" |} in
  let data := JSON_stringify (cacheObj rr) in
  let w := world_of {[ "u1-t1" := data ]} in
  let run := makeAPIRequest no_other_Buffer origin_down sample_request "api_token=u1" "u1-t1" w in
  store w !! "lock" ≠ Some "true" ∧
  store w !! "u1-t1" = Some data ∧
  shallow data ∧
  run.1 = Ok (VObj [ ("statusCode", VNum 200);
                     ("headers", VObj [("content-type", VStr "text/plain")]);
                     ("content", VBuffer "ok") ]) ∧
  trace run.2 = [DbGet "lock"; DbGet "u1-t1"] ∧
  get (VObj [ ("statusCode", VNum 200);
              ("headers", VObj [("content-type", VStr "text/plain")]);
              ("content", VBuffer "ok") ]) "content" = Some (VBuffer "ok").
Proof.
  cbn zeta.
  set (rr := {| msg_statusCode := 200;
                msg_headers := {[ "content-type" := HOne "text/plain";
                                  "connection" := HOne "close" ]};
                msg_body := "ok" |}).
  set (data := JSON_stringify (cacheObj rr)).
  assert (store (world_of {[ "u1-t1" := data ]}) !! "lock" ≠ Some "true")
    as Hl by (vm_compute; discriminate).
  assert (store (world_of {[ "u1-t1" := data ]}) !! "u1-t1" = Some data)
    as Hd by apply lookup_singleton_eq.
  assert (shallow data) as Hs by (unfold shallow; vm_compute; lia).
  split; [exact Hl|]. split; [exact Hd|]. split; [exact Hs|].
  destruct (ready_entry_is_served no_other_Buffer origin_down sample_request
              "api_token=u1" "u1-t1" _ data _ Hl Hd Hs eq_refl) as (Hres & Htr & _ & Hpay).
  destruct (Hpay rr eq_refl) as (_ & _ & _ & Hct).
  { vm_compute. discriminate. }
  split; [exact Hres|]. split; [exact Htr|exact Hct].
Defined.

(** C5, as stated, fails: with an empty account token the resolver does
    not fail; it returns a key, and the handler goes on to the store. *)
Lemma empty_account_token_is_accepted :
  querystring_parse "api_token=" !! "api_token" = Some (QOne "") ∧
  getRequestId sample_request "api_token=" = Ok "-t1" ∧
  let run := onAPIRequest no_other_Buffer origin_ok sample_request "api_token=" (world_of ∅) in
  res_statusCode run.1 = Some (VNum 200) ∧
  trace run.2 = [DbGet "lock"; DbGet "-t1"; DbPut "-t1" "__REQUEST__";
                 Fetch (fetch_options sample_request "api_token=");
                 DbPut "-t1" (JSON_stringify (cacheObj {| msg_statusCode := 200;
                                      msg_headers := {[ "content-type" := HOne "text/plain";
                                                        "connection" := HOne "close" ]};
                                      msg_body := "ok" |}))].
Proof. cbn zeta. split_and!; vm_compute; reflexivity. Qed.

(** C6, as stated, fails: on a BLOCKED key the coordinator returns without
    any store write. *)
Lemma blocked_branch_writes_nothing :
  let w := world_of {[ "u1-t1" := "__BLOCK__" ]} in
  let run := makeAPIRequest no_other_Buffer origin_ok sample_request "api_token=u1" "u1-t1" w in
  run.1 = Throw (Error "gone") ∧
  trace run.2 = [DbGet "lock"; DbGet "u1-t1"] ∧
  List.filter is_put (trace run.2) = [].
Proof. cbn zeta. split_and!; reflexivity. Qed.



Lemma flag_set_only_by_true_witness :
  let w := world_of {[ "lock" := "True"; "u1-t1" := "__BLOCK__" ]} in
  let w' := {| store := delete "lock" (store w); trace := trace w |} in
  store w !! "lock" ≠ Some "true" ∧
  (onAPIRequest no_other_Buffer origin_ok sample_request "api_token=u1" w).1
    = (onAPIRequest no_other_Buffer origin_ok sample_request "api_token=u1" w').1 ∧
  res_statusCode (onAPIRequest no_other_Buffer origin_ok sample_request "api_token=u1" w).1
    = Some (VNum 410).
Proof.
  cbn zeta.
  set (w := world_of _).
  assert (store w !! "lock" ≠ Some "true") as Hl by (vm_compute; discriminate).
  split; [exact Hl|].
  destruct (flag_set_only_by_true no_other_Buffer origin_ok sample_request
              "api_token=u1" w Hl) as (_ & _ & Hres & _).
  split; [exact Hres|reflexivity].
Defined.

Lemma written_values_are_sentinels_or_objects_witness :
  let val := JSON_stringify (cacheObj {| msg_statusCode := 200;
                                         msg_headers := {[ "content-type" := HOne "text/plain";
                                                           "connection" := HOne "close" ]};
                                         msg_body := "ok" |}) in
  let run := makeAPIRequest no_other_Buffer origin_ok sample_request "api_token=u1" "u1-t1"
               (world_of ∅) in
  DbPut "u1-t1" val ∈ trace run.2 ∧
  val ≠ "__REQUEST__" ∧ val ≠ "__BLOCK__" ∧
  interpret (Some val) = READY val ∧
  (makeAPIRequest no_other_Buffer origin_ok other_request "api_token=u1" "u1-t1" run.2).1
    = Ok (VObj [ ("statusCode", VNum 200);
                 ("headers", VObj [("content-type", VStr "text/plain")]);
                 ("content", VBuffer "ok") ]).
Proof.
  cbn zeta.
  set (val := JSON_stringify _).
  set (run := makeAPIRequest no_other_Buffer origin_ok sample_request "api_token=u1" "u1-t1"
                (world_of ∅)).
  assert (DbPut "u1-t1" val ∈ trace run.2) as Hin.
  { vm_compute. do 4 apply list_elem_of_further. apply list_elem_of_here. }
  split; [exact Hin|].
  destruct (written_values_are_sentinels_or_objects no_other_Buffer origin_ok
              sample_request "api_token=u1" "u1-t1" (world_of ∅) _ _ Hin)
    as [Hold|[_ [Hreq|[Hblk|(rr & rest & _ & _ & Hr & Hb & Hi & Hlater)]]]].
  - vm_compute in Hold. by apply elem_of_nil in Hold.
  - vm_compute in Hreq. discriminate Hreq.
  - vm_compute in Hblk. discriminate Hblk.
  - split; [exact Hr|]. split; [exact Hb|]. split; [exact Hi|].
    rewrite (Hlater other_request "api_token=u1" run.2); [reflexivity|..].
    + vm_compute. discriminate.
    + vm_compute. reflexivity.
Defined.

Lemma keys_of_distinct_identities_coincide_witness :
  plain "a" = true ∧ plain "b" = true ∧
  getRequestId sample_request "api_token=a-b" = Ok "a-b-t1" ∧
  getRequestId {| req_method := "POST"; req_url := "/kcsapi/api_port/port";
                  req_headers := {[ "cache-token" := "b-t1" ]} |} "api_token=a"
    = Ok "a-b-t1".
Proof.
  split; [reflexivity|]. split; [reflexivity|].
  apply (keys_of_distinct_identities_coincide sample_request
           {| req_method := "POST"; req_url := "/kcsapi/api_port/port";
              req_headers := {[ "cache-token" := "b-t1" ]} |} "a" "b" "t1");
    reflexivity.
Defined.

Lemma entry_fixes_the_response_witness :
  let w := world_of {[ "u1-t1" := "__BLOCK__" ]} in
  getRequestId sample_request "api_token=u1" = getRequestId other_request "x=1&api_token=u1" ∧
  res_statusCode
    (onAPIRequest no_other_Buffer origin_ok other_request "x=1&api_token=u1"
       (serve no_other_Buffer [(origin_ok, sample_request, "api_token=u2")] w).2).1
  = Some (VNum 410).
Proof.
  cbn zeta.
  assert (getRequestId sample_request "api_token=u1"
          = getRequestId other_request "x=1&api_token=u1") as Hsame by reflexivity.
  split; [exact Hsame|].
  rewrite (entry_fixes_the_response no_other_Buffer origin_down origin_ok
             sample_request "api_token=u1" other_request "x=1&api_token=u1"
             (world_of {[ "u1-t1" := "__BLOCK__" ]})
             [(origin_ok, sample_request, "api_token=u2")] Hsame).
  - reflexivity.
  - intros id Hid. vm_compute in Hid. injection Hid as <-. right. discriminate.
Defined.

Lemma failed_fetch_blocks_key_for_good_witness :
  let w1 := (onAPIRequest no_other_Buffer origin_down sample_request "api_token=u1" (world_of ∅)).2 in
  let w2 := (serve no_other_Buffer [(origin_ok, sample_request, "api_token=u2")] w1).2 in
  store w1 !! "u1-t1" = Some "__BLOCK__" ∧
  res_statusCode (onAPIRequest no_other_Buffer origin_ok other_request "api_token=u1" w2).1
    = Some (VNum 410).
Proof.
  cbn zeta.
  destruct (failed_fetch_blocks_key_for_good no_other_Buffer origin_down sample_request
              "api_token=u1" "u1-t1" (Error "ETIMEDOUT") (world_of ∅)
              [(origin_ok, sample_request, "api_token=u2")]
              origin_ok other_request "api_token=u1") as [Hb Hr];
    [reflexivity|by vm_compute|reflexivity|reflexivity|reflexivity|].
  split; [exact Hb|]. by rewrite Hr.
Defined.


Lemma null_entry_is_internal_error_witness :
  res_statusCode
    (onAPIRequest no_other_Buffer origin_ok sample_request "api_token=u1"
       (world_of {[ "u1-t1" := " null " ]})).1 = Some (VNum 500).
Proof.
  rewrite (null_entry_is_internal_error no_other_Buffer origin_ok sample_request
             "api_token=u1" "u1-t1" (world_of {[ "u1-t1" := " null " ]}) " null ");
    [reflexivity|reflexivity|by vm_compute|reflexivity|reflexivity].
Defined.

Lemma fetch_forwards_the_request_witness :
  let opts := fetch_options sample_request "api_token=u1" in
  Fetch opts ∈ trace (onAPIRequest no_other_Buffer origin_ok sample_request "api_token=u1"
                        (world_of ∅)).2 ∧
  opt_body opts = Some "api_token=u1".
Proof.
  cbn zeta.
  assert (Fetch (fetch_options sample_request "api_token=u1")
            ∈ trace (onAPIRequest no_other_Buffer origin_ok sample_request "api_token=u1"
                       (world_of ∅)).2) as Hin.
  { vm_compute. do 3 apply list_elem_of_further. apply list_elem_of_here. }
  split; [exact Hin|].
  destruct (fetch_forwards_the_request no_other_Buffer origin_ok sample_request
              "api_token=u1" (world_of ∅) _ Hin) as [Hold|[_ Heq]].
  - reflexivity.
  - rewrite Heq. reflexivity.
Defined.

Lemma flag_set_refuses_every_request_witness :
  let w := world_of {[ "lock" := "true" ]} in
  let run := serve no_other_Buffer
               [(origin_ok, sample_request, "api_token=u1");
                (origin_ok, sample_request, "")] w in
  store w !! "lock" = Some "true" ∧
  Forall (λ r, r = renderErrorPage 503 ∨ r = renderErrorPage 403) run.1 ∧
  store run.2 = store w.
Proof.
  cbn zeta.
  assert (store (world_of {[ "lock" := "true" ]}) !! "lock" = Some "true") as Hl by reflexivity.
  split; [exact Hl|].
  destruct (flag_set_refuses_every_request no_other_Buffer
              [(origin_ok, sample_request, "api_token=u1");
               (origin_ok, sample_request, "")]
              (world_of {[ "lock" := "true" ]}) Hl) as (Hrs & Hst & _).
  split; [exact Hrs|exact Hst].
Defined.

Lemma payload_round_trip_iff_witness :
  let rr := {| msg_statusCode := 404;
               msg_headers := {[ "content-type" := HOne "text/html";
                                 "set-cookie" := HMany ["a=1"; "b=2"] ]};
               msg_body := "not found" |} in
  (∀ v y, no_other_Buffer v = Ok y → ∃ b, y = VBuffer b) ∧
  (JSON_parse (JSON_stringify (cacheObj rr)) (reviver no_other_Buffer) = Ok (cacheObj rr)
   ↔ removeProxyHeaders (msg_headers rr) !! "type" ≠ Some (HOne "Buffer")).
Proof.
  cbn zeta.
  assert (∀ v y, no_other_Buffer v = Ok y → ∃ b, y = VBuffer b) as HB
    by (intros v y Hv; discriminate Hv).
  split; [exact HB|].
  exact (payload_round_trip_iff no_other_Buffer _ HB).
Defined.

Lemma getRequestId_fields_witness :
  let body := "api_verno=1&api_token=a%2Db&api_token=c+d" in
  ascii_text body = true ∧
  values_of "api_token" (body_fields body) = ["a-b"; "c d"] ∧
  getRequestId sample_request body = Ok "a-b,c d-t1" ∧
  getRequestId sample_request "api_verno=1" = Throw (Error "forbidden").
Proof.
  cbn zeta.
  split; [reflexivity|]. split; [reflexivity|]. split.
  - rewrite (getRequestId_fields sample_request "api_verno=1&api_token=a%2Db&api_token=c+d");
      [reflexivity|reflexivity|].
    repeat constructor.
  - rewrite (getRequestId_fields sample_request "api_verno=1"); [reflexivity|reflexivity|].
    constructor.
Defined.

Lemma entry_without_status_code_is_internal_error_witness :
  let w := world_of {[ "u1-t1" := "123" ]} in
  (makeAPIRequest no_other_Buffer origin_ok sample_request "api_token=u1" "u1-t1" w).1
    = Ok (VNum 123) ∧
  res_statusCode (onAPIRequest no_other_Buffer origin_ok sample_request "api_token=u1" w).1
    = Some (VNum 500).
Proof.
  cbn zeta.
  destruct (entry_without_status_code_is_internal_error no_other_Buffer origin_ok
              sample_request "api_token=u1" "u1-t1" (world_of {[ "u1-t1" := "123" ]})
              "123" (VNum 123)) as [Hrun Hres];
    [reflexivity|by vm_compute|reflexivity|unfold shallow; vm_compute; lia
    |reflexivity|reflexivity|].
  split; [exact Hrun|]. by rewrite Hres.
Defined.
